(** * iam-go-sdk: the default IAM client ([defaultclient.go])

    A shallow embedding of the [DefaultClient] of package [iam] and the
    properties of its validation entry points.

    Conventions of the embedding:
    - a Go [string] is a Rocq [string] (a sequence of bytes);
    - [int], [int64] and [time.Duration] values are [Z];
    - a Go [error] value is [option error], [None] being [nil];
    - a pointer that may be [nil] is an [option];
    - a Go [map] is a [gmap]; the order in which [range] visits it is
      not fixed by the language, so a loop over a map takes the visiting
      order as an explicit list (see [range_order]);
    - methods of [*DefaultClient] run in the monad [M]: they thread the
      client, the heap of [Config] objects and the outside world, they may
      panic, and they record the calls that leave this file. *)

From Stdlib Require Import ZArith Lia.
From stdpp Require Import base option list strings gmap fin_maps pretty.

Local Open Scope Z_scope.

(** ** Strings *)

(** [strings.HasPrefix(s, prefix)]. *)
Fixpoint HasPrefix (s prefix : string) {struct prefix} : bool :=
  match prefix, s with
  | EmptyString, _ => true
  | String _ _, EmptyString => false
  | String p prefix', String c s' =>
      if Ascii.eqb c p then HasPrefix s' prefix' else false
  end.

(** [s[n:]] for [n <= len(s)]. *)
Fixpoint string_drop (n : nat) (s : string) : string :=
  match n, s with
  | O, _ => s
  | S _, EmptyString => EmptyString
  | S n', String _ s' => string_drop n' s'
  end.

(** [strings.Replace(s, old, new, 1)] of the Go standard library: the
    leftmost occurrence of [old] in [s] is replaced by [new]; [s] is
    returned as it is when [old] does not occur.  An empty [old] matches at
    the beginning of the string. *)
Fixpoint Replace1 (s old new : string) : string :=
  if HasPrefix s old then new +:+ string_drop (String.length old) s
  else match s with
       | EmptyString => EmptyString
       | String c s' => String c (Replace1 s' old new)
       end.

(** [strings.Contains(s, substr)]. *)
Fixpoint Contains (s substr : string) : bool :=
  if HasPrefix s substr then true
  else match s with
       | EmptyString => false
       | String _ s' => Contains s' substr
       end.

(** [old] occurs in [s] at byte offset [i]. *)
Definition occurs_at (i : nat) (old s : string) : Prop :=
  ∃ pre post, s = pre +:+ old +:+ post ∧ String.length pre = i.

(** What "the first occurrence of [old] in [s] is replaced by [new]" means,
    stated without reference to the search that [Replace1] performs. *)
Inductive first_replaced (old new s : string) : string → Prop :=
  | first_replaced_absent :
      (∀ i, ¬ occurs_at i old s) →
      first_replaced old new s s
  | first_replaced_at pre post :
      s = pre +:+ old +:+ post →
      (∀ i, (i < String.length pre)%nat → ¬ occurs_at i old s) →
      first_replaced old new s (pre +:+ new +:+ post).

Definition newline : string := String (Ascii.ascii_of_nat 10) EmptyString.

(** ** Errors *)

(** Go compares [error] values by identity.  [errRoleNotFound] is the
    package-level sentinel; every other error value ([errors.New],
    [fmt.Errorf], errors of the transport) is an [errorString], which is
    never identical to the sentinel, whatever its text. *)
Inductive error : Type :=
  | errRoleNotFound
  | errorString (text : string).

Global Instance error_eq_dec : EqDecision error.
Proof. solve_decision. Defined.

(** ** Constants *)

Definition Second : Z := 1000000000.
Definition Minute : Z := 60 * Second.

Definition clientInformationPath (namespace clientID : string) : string :=
  "/v3/admin/namespaces/" +:+ namespace +:+ "/clients/" +:+ clientID.

Definition defaultRoleCacheTime : Z := 60 * Second.
Definition defaultJWKSRefreshInterval : Z := 60 * Second.
Definition defaultRevocationListRefreshInterval : Z := 60 * Second.

Definition baseURIKey : string := "baseURI".
Definition baseURICacheExpiration : Z := 1 * Minute.

Definition MethodGet : string := "GET".
Definition StatusOK : Z := 200.

(** ** Data *)

(** [Config] contains IAM configurations. *)
Record Config : Type := {
  BaseURL : string;
  ClientID : string;
  ClientSecret : string;
  RolesCacheExpirationTime : Z;
  JWKSRefreshInterval : Z;
  RevocationListRefreshInterval : Z
}.

(** [Permission] is declared in another file of the package; its two
    fields are the ones this file reads and writes. *)
Record Permission : Type := {
  Resource : string;
  Action : Z
}.

(** [JWTClaims] is declared in another file of the package; these are the
    fields this file reads.  [Audience] is a slice that may be [nil]
    ([None]); [IssuedAt] is a number of seconds, so that [int64(IssuedAt)]
    is the value itself. *)
Record JWTClaims : Type := {
  Namespace : string;
  Roles : list string;
  Permissions : list Permission;
  Subject : string;
  IssuedAt : Z;
  Audience : option (list string)
}.

(** [net/http]: what this file builds of a request and reads of a
    response.  [Body] is what [ioutil.ReadAll(resp.Body)] returns. *)
Record Request : Type := {
  Method : string;
  URL : string;
  Header : list (string * string)
}.

Record Response : Type := {
  StatusCode : Z;
  Body : string * option error
}.

Definition HeaderAdd (key value : string) (req : Request) : Request :=
  {| Method := Method req; URL := URL req;
     Header := Header req ++ [(key, value)] |}.

(** ** The cache of [github.com/patrickmn/go-cache] *)

Module cache.

Record Item (V : Type) : Type := {
  Object : V;
  Expiration : Z
}.
Arguments Object {V} _.
Arguments Expiration {V} _.

Record Cache (V : Type) : Type := {
  defaultExpiration : Z;
  items : gmap string (Item V)
}.
Arguments defaultExpiration {V} _.
Arguments items {V} _.

Definition DefaultExpiration : Z := 0.

(** [cache.New(defaultExpiration, cleanupInterval)]; the janitor only
    deletes items that [Get] no longer returns. *)
Definition New {V : Type} (de cleanupInterval : Z) : Cache V :=
  {| defaultExpiration := if decide (de = 0) then -1 else de;
     items := ∅ |}.

(** [c.Set(k, x, d)] at time [now] (nanoseconds). *)
Definition Set_ {V : Type} (now : Z) (k : string) (x : V) (d : Z)
    (c : Cache V) : Cache V :=
  let d := if decide (d = DefaultExpiration) then defaultExpiration c else d in
  let e := if decide (0 < d) then now + d else 0 in
  {| defaultExpiration := defaultExpiration c;
     items := <[k := {| Object := x; Expiration := e |}]> (items c) |}.

(** [c.Get(k)] at time [now]: the object, when it is there and has not
    expired. *)
Definition Get {V : Type} (now : Z) (k : string) (c : Cache V) : option V :=
  match items c !! k with
  | None => None
  | Some item =>
      if decide (0 < Expiration item) then
        if decide (Expiration item < now) then None else Some (Object item)
      else Some (Object item)
  end.

End cache.

(** ** The client and its surroundings *)

(** What lies outside the package: the state of the network and of the
    clock, and the types of the key and filter libraries. *)
Class Outside : Type := {
  World : Type;
  (** [time.Now().UnixNano()] *)
  timeNow : World → Z;
  (** [*rsa.PublicKey] *)
  PublicKey : Type;
  (** [bloom.Filter] *)
  Filter : Type;
  (** what the role cache stores *)
  RoleCacheObject : Type
}.

Section Client.
Context `{Outside}.

(** [HTTPClient] is an interface for [http.Client]. *)
Record HTTPClient : Type := {
  Do : Request → World → (option Response * option error) * World
}.

(** [DefaultClient] define oauth client config.  The field
    [remoteTokenValidation], the pass-through to the remote validation
    call, is left out. *)
Record DefaultClient : Type := {
  keys : gmap string PublicKey;
  clientAccessToken : string;
  config : option positive;
  rolePermissionCache : cache.Cache RoleCacheObject;
  revocationFilter : option Filter;
  revokedUsers : gmap string Z;
  tokenRefreshActive : bool;
  localValidationActive : bool;
  jwksRefreshError : option error;
  revocationListRefreshError : option error;
  tokenRefreshError : option error;
  baseURICache : cache.Cache string;
  httpClient : HTTPClient
}.

(** The state a method runs in: the receiver, the [Config] objects that
    pointers refer to, and the outside world. *)
Record Machine : Type := {
  client : DefaultClient;
  configs : gmap positive Config;
  world : World
}.

(** Calls that leave this file and the process. *)
Inductive Event : Type :=
  | EvGetJWKS
  | EvGetRevocationList
  | EvGo (task : string)
  | EvValidateJWT (accessToken : string)
  | EvTokenRevoked (accessToken : string)
  | EvGetRolePermission (roleID : string)
  | EvHTTPDo (req : Request)
  | EvPrintf (text : string).

(** A computation returns a value or panics ([None]), leaves a machine and
    a trace of events. *)
Definition M (A : Type) : Type := Machine → option A * Machine * list Event.

Global Instance M_ret : MRet M := λ A a σ, (Some a, σ, []).

Global Instance M_bind : MBind M := λ A B f x σ,
  match x σ with
  | (Some a, σ', t) => let '(r, σ'', t') := f a σ' in (r, σ'', t ++ t')
  | (None, σ', t) => (None, σ', t)
  end.

Definition panic {A : Type} : M A := λ σ, (None, σ, []).

(** Read a field of the receiver. *)
Definition gets {A : Type} (f : DefaultClient → A) : M A :=
  λ σ, (Some (f (client σ)), σ, []).

Definition setClient (f : DefaultClient → DefaultClient) : M unit :=
  λ σ, (Some tt,
        {| client := f (client σ); configs := configs σ; world := world σ |},
        []).

(** Call a method that is defined outside this file. *)
Definition call {A : Type} (ev : Event) (f : Machine → A * Machine) : M A :=
  λ σ, let '(a, σ') := f σ in (Some a, σ', [ev]).

Definition emit (ev : Event) : M unit := λ σ, (Some tt, σ, [ev]).

(** Dereference a pointer; [nil] panics. *)
Definition deref {A : Type} (p : option A) : M A :=
  match p with
  | Some a => mret a
  | None => panic
  end.

(** [*client.config] *)
Definition getConfig : M Config :=
  λ σ, match config (client σ) with
       | Some p =>
           match configs σ !! p with
           | Some cfg => (Some cfg, σ, [])
           | None => (None, σ, [])
           end
       | None => (None, σ, [])
       end.

Definition now : M Z := λ σ, (Some (timeNow (world σ)), σ, []).

(** The methods of [*DefaultClient] and the library functions that this
    file calls and that are defined elsewhere. *)
Class Collaborators : Type := {
  (** the text of the sentinel, [errRoleNotFound.Error()] *)
  errRoleNotFoundText : string;
  getJWKS : Machine → option error * Machine;
  getRevocationList : Machine → option error * Machine;
  validateJWT : string → Machine → (option JWTClaims * option error) * Machine;
  tokenRevoked : string → Machine → bool * Machine;
  getRolePermission : string → Machine → (list Permission * option error) * Machine;
  (** the match rule: no effect *)
  permissionAllowed : list Permission → Permission → bool;
  (** substitution of the token's own context: no effect *)
  applyUserPermissionResourceValues : list Permission → JWTClaims → list Permission;
  (** [http.NewRequest(method, url, nil)] *)
  httpNewRequest : string → string → option Request * option error;
  (** [json.Unmarshal(body, &clientInformation)]: the decoded [BaseUri]
      and the error *)
  jsonUnmarshalClientInformation : string → string * option error;
  (** [&http.Client{}] *)
  netHTTPClient : HTTPClient
}.

Context `{Collaborators}.

(** [err.Error()], as [%v] prints it. *)
Definition Error (e : error) : string :=
  match e with
  | errRoleNotFound => errRoleNotFoundText
  | errorString text => text
  end.

(** ** NewDefaultClient *)

(** [NewDefaultClient] creates new IAM DefaultClient.  [config] is the
    caller's pointer; the result is [None] when dereferencing it panics,
    and otherwise the new client together with the heap as the function
    leaves it. *)
Definition NewDefaultClient (config : option positive)
    (heap : gmap positive Config) : option (DefaultClient * gmap positive Config) :=
  p ← config;
  cfg ← heap !! p;
  let cfg :=
    if decide (RolesCacheExpirationTime cfg ≤ 0) then
      {| BaseURL := BaseURL cfg; ClientID := ClientID cfg;
         ClientSecret := ClientSecret cfg;
         RolesCacheExpirationTime := defaultRoleCacheTime;
         JWKSRefreshInterval := JWKSRefreshInterval cfg;
         RevocationListRefreshInterval := RevocationListRefreshInterval cfg |}
    else cfg in
  let cfg :=
    if decide (JWKSRefreshInterval cfg ≤ 0) then
      {| BaseURL := BaseURL cfg; ClientID := ClientID cfg;
         ClientSecret := ClientSecret cfg;
         RolesCacheExpirationTime := RolesCacheExpirationTime cfg;
         JWKSRefreshInterval := defaultJWKSRefreshInterval;
         RevocationListRefreshInterval := RevocationListRefreshInterval cfg |}
    else cfg in
  let cfg :=
    if decide (RevocationListRefreshInterval cfg ≤ 0) then
      {| BaseURL := BaseURL cfg; ClientID := ClientID cfg;
         ClientSecret := ClientSecret cfg;
         RolesCacheExpirationTime := RolesCacheExpirationTime cfg;
         JWKSRefreshInterval := JWKSRefreshInterval cfg;
         RevocationListRefreshInterval := defaultRevocationListRefreshInterval |}
    else cfg in
  Some ({| keys := ∅;
           clientAccessToken := "";
           config := Some p;
           rolePermissionCache :=
             cache.New (RolesCacheExpirationTime cfg)
                       (2 * RolesCacheExpirationTime cfg);
           revocationFilter := None;
           revokedUsers := ∅;
           tokenRefreshActive := false;
           localValidationActive := false;
           jwksRefreshError := None;
           revocationListRefreshError := None;
           tokenRefreshError := None;
           baseURICache := cache.New baseURICacheExpiration baseURICacheExpiration;
           httpClient := netHTTPClient |},
        <[p := cfg]> heap).

(** ** HealthCheck *)

(** [HealthCheck] lets caller know the health of the IAM client. *)
Definition HealthCheck (c : DefaultClient) : bool :=
  if bool_decide (jwksRefreshError c ≠ None) then false
  else if bool_decide (revocationListRefreshError c ≠ None) then false
  else if tokenRefreshActive c && bool_decide (tokenRefreshError c ≠ None) then false
  else true.

(** ** StartLocalValidation *)

(** [fmt.Errorf(prefix + "%v", err)] *)
Definition Errorf (prefix : string) (err : error) : error :=
  errorString (prefix +:+ Error err).

(** [StartLocalValidation] starts goroutines to refresh JWK and revocation
    list periodically; this enables local token validation.  The two
    goroutines are recorded as started, their runs are not followed. *)
Definition StartLocalValidation : M (option error) :=
  err ← call EvGetJWKS getJWKS;
  match err with
  | Some e => mret (Some (Errorf "unable to get JWKS: " e))
  | None =>
      err ← call EvGetRevocationList getRevocationList;
      match err with
      | Some e => mret (Some (Errorf "unable to get revocation list: " e))
      | None =>
          emit (EvGo "refreshJWKS");;
          emit (EvGo "refreshRevocationList");;
          setClient (λ c,
            {| keys := keys c;
               clientAccessToken := clientAccessToken c;
               config := config c;
               rolePermissionCache := rolePermissionCache c;
               revocationFilter := revocationFilter c;
               revokedUsers := revokedUsers c;
               tokenRefreshActive := tokenRefreshActive c;
               localValidationActive := true;
               jwksRefreshError := jwksRefreshError c;
               revocationListRefreshError := revocationListRefreshError c;
               tokenRefreshError := tokenRefreshError c;
               baseURICache := baseURICache c;
               httpClient := httpClient c |});;
          mret None
      end
  end.

(** ** ValidateAndParseClaims *)

Definition errLocalValidationNotActive : error :=
  errorString "local validation is not active, activate by calling StartLocalValidation()".
Definition errUserRevoked : error := errorString "user has been revoked".
Definition errTokenRevoked : error := errorString "token has been revoked".

(** Modelled from the spec: [userRevoked] is defined in another file of
    the package.  The subject-level check of section 4.1: the subject is
    revoked when it appears in the exact revoked-subject map with a
    revocation timestamp greater than or equal to the token's issued-at
    time. *)
Definition userRevoked (userID : string) (issuedAt : Z) : M bool :=
  revoked ← gets revokedUsers;
  mret (match revoked !! userID with
        | Some revokedAt => bool_decide (issuedAt ≤ revokedAt)
        | None => false
        end).

(** [ValidateAndParseClaims] validates access token locally and returns
    the JWT claims contained in the token. *)
Definition ValidateAndParseClaims (accessToken : string)
    : M (option JWTClaims * option error) :=
  active ← gets localValidationActive;
  if negb active then mret (None, Some errLocalValidationNotActive)
  else
    '(claims, err) ← call (EvValidateJWT accessToken) (validateJWT accessToken);
    match err with
    | Some e => mret (None, Some (Errorf "unable to verify JWT : " e))
    | None =>
        c ← deref claims;
        revoked ← userRevoked (Subject c) (IssuedAt c);
        if (revoked : bool) then mret (None, Some errUserRevoked)
        else
          revoked ← call (EvTokenRevoked accessToken) (tokenRevoked accessToken);
          if (revoked : bool) then mret (None, Some errTokenRevoked)
          else mret (claims, None)
    end.

(** ** ValidatePermission *)

(** The order in which [range] may visit the entries of a map: each entry
    once, in any order. *)
Definition range_order (m : gmap string string)
    (order : list (string * string)) : Prop :=
  order ≡ₚ map_to_list m.

(** The loop over [permissionResources]: one [strings.Replace] with
    count 1 per entry, in the order in which the entries are visited. *)
Fixpoint replacePlaceholders (order : list (string * string))
    (requiredPermission : Permission) : Permission :=
  match order with
  | [] => requiredPermission
  | (placeholder, value) :: rest =>
      replacePlaceholders rest
        {| Resource := Replace1 (Resource requiredPermission) placeholder value;
           Action := Action requiredPermission |}
  end.

(** The loop over [claims.Roles]. *)
Fixpoint validateRoles (claims : JWTClaims) (requiredPermission : Permission)
    (roles : list string) : M (bool * option error) :=
  match roles with
  | [] => mret (false, None)
  | roleID :: rest =>
      '(grantedRolePermissions, err) ←
        call (EvGetRolePermission roleID) (getRolePermission roleID);
      match err with
      | Some e =>
          if decide (e = errRoleNotFound)
          then validateRoles claims requiredPermission rest
          else mret (false, Some e)
      | None =>
          let grantedRolePermissions :=
            applyUserPermissionResourceValues grantedRolePermissions claims in
          if permissionAllowed grantedRolePermissions requiredPermission
          then mret (true, None)
          else validateRoles claims requiredPermission rest
      end
  end.

(** [ValidatePermission] validates if an access token has right for a
    specific permission.  [permissionResources] is the map of the caller,
    given as its entries in the order in which [range] visits them. *)
Definition ValidatePermission (claims : option JWTClaims)
    (requiredPermission : Permission)
    (permissionResources : list (string * string)) : M (bool * option error) :=
  match claims with
  | None => mret (false, None)
  | Some c =>
      let requiredPermission :=
        replacePlaceholders permissionResources requiredPermission in
      if permissionAllowed (Permissions c) requiredPermission
      then mret (true, None)
      else validateRoles c requiredPermission (Roles c)
  end.

(** ** ValidateAudience *)

Definition errClaimsNil : error := errorString "claims is nil".
Definition errAudienceMismatch : error :=
  errorString "audience doesn't match the client's base uri. access denied".

Definition cacheGetBaseURI : M (option string) :=
  t ← now;
  c ← gets baseURICache;
  mret (cache.Get t baseURIKey c).

Definition cacheSetBaseURI (baseURI : string) : M unit :=
  t ← now;
  setClient (λ c,
    {| keys := keys c;
       clientAccessToken := clientAccessToken c;
       config := config c;
       rolePermissionCache := rolePermissionCache c;
       revocationFilter := revocationFilter c;
       revokedUsers := revokedUsers c;
       tokenRefreshActive := tokenRefreshActive c;
       localValidationActive := localValidationActive c;
       jwksRefreshError := jwksRefreshError c;
       revocationListRefreshError := revocationListRefreshError c;
       tokenRefreshError := tokenRefreshError c;
       baseURICache :=
         cache.Set_ t baseURIKey baseURI cache.DefaultExpiration (baseURICache c);
       httpClient := httpClient c |}).

(** [client.httpClient.Do(req)] *)
Definition httpDo (req : Request) : M (option Response * option error) :=
  λ σ, let '(r, w) := Do (httpClient (client σ)) req (world σ) in
       (Some r,
        {| client := client σ; configs := configs σ; world := w |},
        [EvHTTPDo req]).

(** [getClientInformation] get client base URI; need client access token
    for authorization. *)
Definition getClientInformation (getClientInformationURL : string)
    : M (option error) :=
  let '(req, err) := httpNewRequest MethodGet getClientInformationURL in
  match err with
  | Some e => mret (Some (Errorf "unable to create new http request: " e))
  | None =>
      req ← deref req;
      let req := HeaderAdd "Content-Type" "application/json" req in
      token ← gets clientAccessToken;
      let req := HeaderAdd "Authorization" ("Bearer " +:+ token) req in
      '(resp, err) ← httpDo req;
      match err with
      | Some e => mret (Some (Errorf "unable to do http request: " e))
      | None =>
          resp ← deref resp;
          let '(bodyBytes, err) := Body resp in
          match err with
          | Some e => mret (Some (Errorf "unable to read body response: " e))
          | None =>
              if decide (StatusCode resp ≠ StatusOK) then
                mret (Some (errorString
                  ("unable to get client information : error code : "
                   +:+ pretty (StatusCode resp)
                   +:+ ", error message : " +:+ bodyBytes)))
              else
                let '(baseURI, err) := jsonUnmarshalClientInformation bodyBytes in
                match err with
                | Some e => mret (Some (Errorf "unable to unmarshal body: " e))
                | None => cacheSetBaseURI baseURI;; mret None
                end
          end
      end
  end.

(** The loop over [claims.Audience]; [baseURI] is the interface value
    that the cache returned, [None] being [nil]. *)
Fixpoint audienceAllowed (audience : list string) (baseURI : option string) : bool :=
  match audience with
  | [] => false
  | reqAud :: rest =>
      if decide (Some reqAud = baseURI) then true
      else audienceAllowed rest baseURI
  end.

Definition checkAudience (audience : list string) (baseURI : option string)
    : M (option error) :=
  if negb (audienceAllowed audience baseURI) then mret (Some errAudienceMismatch)
  else mret None.

(** [ValidateAudience] validate audience of user access token. *)
Definition ValidateAudience (claims : option JWTClaims) : M (option error) :=
  match claims with
  | None => mret (Some errClaimsNil)
  | Some c =>
      match Audience c with
      | None =>
          emit (EvPrintf ("[IAM-Go-SDK] No audience found in the token. "
                          +:+ "Skipping the audience validation" +:+ newline));;
          mret None
      | Some audience =>
          baseURI ← cacheGetBaseURI;
          match baseURI with
          | Some _ => checkAudience audience baseURI
          | None =>
              cfg ← getConfig;
              let path := clientInformationPath (Namespace c) (ClientID cfg) in
              cfg ← getConfig;
              let getClientInformationURL := BaseURL cfg +:+ path in
              err ← getClientInformation getClientInformationURL;
              match err with
              | Some e =>
                  emit (EvPrintf ("[IAM-Go-SDK] get client detail returns error: "
                                  +:+ Error e +:+ newline));;
                  mret (Some e)
              | None =>
                  baseURI ← cacheGetBaseURI;
                  checkAudience audience baseURI
              end
          end
      end
  end.

(** ** Vocabulary of the properties *)

(** The client with another recorded bearer-token-refresh error. *)
Definition withTokenRefreshError (e : option error) (c : DefaultClient)
    : DefaultClient :=
  {| keys := keys c;
     clientAccessToken := clientAccessToken c;
     config := config c;
     rolePermissionCache := rolePermissionCache c;
     revocationFilter := revocationFilter c;
     revokedUsers := revokedUsers c;
     tokenRefreshActive := tokenRefreshActive c;
     localValidationActive := localValidationActive c;
     jwksRefreshError := jwksRefreshError c;
     revocationListRefreshError := revocationListRefreshError c;
     tokenRefreshError := e;
     baseURICache := baseURICache c;
     httpClient := httpClient c |}.

(** The base URI that the cache of the client holds at the time of the
    machine's clock. *)
Definition cachedBaseURI (σ : Machine) : option string :=
  cache.Get (timeNow (world σ)) baseURIKey (baseURICache (client σ)).

Definition noAudienceText : string :=
  "[IAM-Go-SDK] No audience found in the token. "
  +:+ "Skipping the audience validation" +:+ newline.

End Client.

(** The bindings applied one after the other, each by replacing the first
    occurrence of its placeholder in the string that the bindings before it
    left. *)
Inductive placeholders_replaced : list (string * string) → string → string → Prop :=
  | placeholders_replaced_nil s :
      placeholders_replaced [] s s
  | placeholders_replaced_cons placeholder value rest s s' s'' :
      first_replaced placeholder value s s' →
      placeholders_replaced rest s' s'' →
      placeholders_replaced ((placeholder, value) :: rest) s s''.

(** * A concrete setting

    A small world in which the theorems are exercised and the behaviour of
    the code is computed: the clock is the state of the world, the
    transport answers every request with status 200 and a fixed body,
    three roles are known to the role store. *)

Module Demo.

#[local] Instance outside : Outside := {|
  World := Z;
  timeNow := λ w, w;
  PublicKey := unit;
  Filter := unit;
  RoleCacheObject := list Permission
|}.

(** A stand-in for the match rule: the same resource, and every required
    action bit granted. *)
Definition matches (granted : list Permission) (required : Permission) : bool :=
  existsb (λ g, bool_decide (Resource g = Resource required)
                && bool_decide (Z.land (Action required) (Action g) = Action required))
          granted.

Definition alice : JWTClaims := {|
  Namespace := "accel";
  Roles := ["ghost"; "down"; "mod"];
  Permissions := [{| Resource := "NAMESPACE:accel:USER:42"; Action := 2 |}];
  Subject := "alice";
  IssuedAt := 1000;
  Audience := Some ["https://app.example"]
|}.

(** The same token without an audience. *)
Definition aliceNoAudience : JWTClaims := {|
  Namespace := "accel";
  Roles := ["ghost"; "down"; "mod"];
  Permissions := [{| Resource := "NAMESPACE:accel:USER:42"; Action := 2 |}];
  Subject := "alice";
  IssuedAt := 1000;
  Audience := None
|}.

(** The transport of the standard library: always status 200. *)
Definition answering : HTTPClient := {|
  Do := λ _ w,
    ((Some {| StatusCode := 200; Body := ("https://app.example", None) |}, None),
     w + 1)
|}.

(** A transport that cannot connect. *)
Definition refusing : HTTPClient := {|
  Do := λ _ w, ((None, Some (errorString "dial tcp: connection refused")), w + 1)
|}.

#[local] Instance collaborators : Collaborators := {|
  errRoleNotFoundText := "role not found";
  getJWKS := λ σ, (Some (errorString "connection refused"), σ);
  getRevocationList := λ σ, (None, σ);
  validateJWT := λ accessToken σ,
    if String.eqb accessToken "token-of-alice" then ((Some alice, None), σ)
    else ((None, Some (errorString "malformed token")), σ);
  tokenRevoked := λ _ σ, (false, σ);
  getRolePermission := λ roleID σ,
    if String.eqb roleID "mod"
    then (([{| Resource := "NAMESPACE:accel:ROLE"; Action := 6 |}], None), σ)
    else if String.eqb roleID "down"
    then (([], Some (errorString "role store is down")), σ)
    else (([], Some errRoleNotFound), σ);
  permissionAllowed := matches;
  applyUserPermissionResourceValues := λ granted _, granted;
  httpNewRequest := λ method url,
    (Some {| Method := method; URL := url; Header := [] |}, None);
  jsonUnmarshalClientInformation := λ body, (body, None);
  netHTTPClient := answering
|}.

Definition config0 : Config := {|
  BaseURL := "https://iam.example";
  ClientID := "client-1";
  ClientSecret := "secret";
  RolesCacheExpirationTime := 0;
  JWKSRefreshInterval := 5 * Second;
  RevocationListRefreshInterval := -1
|}.

Definition heap0 : gmap positive Config := {[ 1%positive := config0 ]}.

(** A client as [NewDefaultClient] builds it, with the activation flag,
    the revoked subjects and the transport as given. *)
Definition clientWith (active : bool) (revoked : gmap string Z)
    (transport : HTTPClient) : DefaultClient := {|
  keys := ∅;
  clientAccessToken := "bearer-1";
  config := Some 1%positive;
  rolePermissionCache := cache.New (60 * Second) (120 * Second);
  revocationFilter := None;
  revokedUsers := revoked;
  tokenRefreshActive := false;
  localValidationActive := active;
  jwksRefreshError := None;
  revocationListRefreshError := None;
  tokenRefreshError := None;
  baseURICache := cache.New baseURICacheExpiration baseURICacheExpiration;
  httpClient := transport
|}.

Definition machineWith (c : DefaultClient) : Machine :=
  {| client := c; configs := heap0; world := 0 |}.

(** Not activated. *)
Definition idle : Machine := machineWith (clientWith false ∅ answering).

(** Activated; alice was revoked at time 1000. *)
Definition active : Machine :=
  machineWith (clientWith true {[ "alice" := 1000 ]} answering).

(** Activated; alice was revoked at time 999. *)
Definition activeEarlier : Machine :=
  machineWith (clientWith true {[ "alice" := 999 ]} answering).

(** Activated, with the transport that cannot connect. *)
Definition offline : Machine := machineWith (clientWith true ∅ refusing).

Definition userPermission : Permission :=
  {| Resource := "NAMESPACE:{namespace}:USER:{userId}"; Action := 2 |}.

Definition userBindings : gmap string string :=
  {[ "{namespace}" := "accel"; "{userId}" := "42" ]}.

Definition rolePermission : Permission :=
  {| Resource := "NAMESPACE:{namespace}:ROLE"; Action := 2 |}.

Definition namespaceBinding : list (string * string) := [("{namespace}", "accel")].

(** A pattern that names the same placeholder twice. *)
Definition twice : Permission := {| Resource := "{a}:{a}"; Action := 2 |}.
Definition bindA : gmap string string := {[ "{a}" := "x" ]}.

(** The machine after a first audience validation of alice's token: the
    base URI of the client is in the cache. *)
Definition warm : Machine := (ValidateAudience (Some alice) active).1.2.

(** Claims whose own permission is the given resource with action 2. *)
Definition holder (resource : string) : JWTClaims := {|
  Namespace := "accel";
  Roles := [];
  Permissions := [{| Resource := resource; Action := 2 |}];
  Subject := "bob";
  IssuedAt := 1000;
  Audience := None
|}.

End Demo.

(** * The other methods of the client *)

(** JFlags constants *)
Definition UserStatusEmailVerified : Z := 1.
Definition UserStatusPhoneVerified : Z := Z.shiftl 1 1.
Definition UserStatusAnonymous : Z := Z.shiftl 1 2.

(** [scopeSeparator], the one byte of the constant [" "]. *)
Definition scopeSeparator : Ascii.ascii := Ascii.ascii_of_nat 32.

(** [strings.Split(s, sep)] of the Go standard library for a separator of
    one byte: the fields between the separators, in order; a string
    without separator is the only field, the empty string included. *)
Fixpoint Split1 (s : string) (sep : Ascii.ascii) : list string :=
  match s with
  | EmptyString => [EmptyString]
  | String c s' =>
      if Ascii.eqb c sep then EmptyString :: Split1 s' sep
      else match Split1 s' sep with
           | [] => [String c EmptyString]
           | field :: fields => String c field :: fields
           end
  end.

(** [strings.Join(fields, sep)] for a separator of one byte. *)
Fixpoint Join1 (fields : list string) (sep : Ascii.ascii) : string :=
  match fields with
  | [] => EmptyString
  | [field] => field
  | field :: fields => field +:+ String sep (Join1 fields sep)
  end.

(** The byte [b] occurs in [s]. *)
Fixpoint hasByte (b : Ascii.ascii) (s : string) : bool :=
  match s with
  | EmptyString => false
  | String c s' => Ascii.eqb c b || hasByte b s'
  end.

(** [JWTBan] is declared in another file of the package; [Ban] is the
    field this file reads. *)
Record JWTBan : Type := {
  Ban : string
}.

(** The fields of [JWTClaims] that the methods below read beside those of
    the record [JWTClaims] above: one value of this record stands for one
    [JWTClaims] of the package. *)
Record Claims : Type := {
  jwt : JWTClaims;
  JusticeFlags : Z;
  Bans : list JWTBan;
  Scope : string
}.

Section ClientRest.
Context `{Outside}.

(** [ClientToken] returns client access token. *)
Definition ClientToken : M string := gets clientAccessToken.

(** The loop of [ValidateRole]. *)
Fixpoint roleGranted (requiredRoleID : string) (roles : list string) : bool :=
  match roles with
  | [] => false
  | grantedRoleID :: rest =>
      if decide (grantedRoleID = requiredRoleID) then true
      else roleGranted requiredRoleID rest
  end.

(** [ValidateRole] validates if an access token has a specific role. *)
Definition ValidateRole (requiredRoleID : string) (claims : option JWTClaims)
    : M (bool * option error) :=
  c ← deref claims;
  mret (roleGranted requiredRoleID (Roles c), None).

(** [UserPhoneVerificationStatus] gets user phone verification status on
    access token. *)
Definition UserPhoneVerificationStatus (claims : option Claims)
    : M (bool * option error) :=
  c ← deref claims;
  let phoneVerified :=
    bool_decide (Z.land (JusticeFlags c) UserStatusPhoneVerified
                 = UserStatusPhoneVerified) in
  mret (phoneVerified, None).

(** [UserEmailVerificationStatus] gets user email verification status on
    access token. *)
Definition UserEmailVerificationStatus (claims : option Claims)
    : M (bool * option error) :=
  c ← deref claims;
  let emailVerified :=
    bool_decide (Z.land (JusticeFlags c) UserStatusEmailVerified
                 = UserStatusEmailVerified) in
  mret (emailVerified, None).

(** [UserAnonymousStatus] gets user anonymous status on access token. *)
Definition UserAnonymousStatus (claims : option Claims)
    : M (bool * option error) :=
  c ← deref claims;
  let anonymousStatus :=
    bool_decide (Z.land (JusticeFlags c) UserStatusAnonymous
                 = UserStatusAnonymous) in
  mret (anonymousStatus, None).

(** The loop of [HasBan]. *)
Fixpoint banFound (bans : list JWTBan) (banType : string) : bool :=
  match bans with
  | [] => false
  | ban :: rest =>
      if decide (Ban ban = banType) then true else banFound rest banType
  end.

(** [HasBan] validates if certain ban exist. *)
Definition HasBan (claims : option Claims) (banType : string) : M bool :=
  c ← deref claims;
  mret (banFound (Bans c) banType).

Definition errInsufficientScope : error := errorString "insufficient scope".

(** The loop of [ValidateScope]. *)
Fixpoint scopeFound (scopes : list string) (reqScope : string) : bool :=
  match scopes with
  | [] => false
  | scope :: rest =>
      if decide (reqScope = scope) then true else scopeFound rest reqScope
  end.

(** [ValidateScope] validate scope of user access token. *)
Definition ValidateScope (claims : option Claims) (reqScope : string)
    : M (option error) :=
  c ← deref claims;
  let scopes := Split1 (Scope c) scopeSeparator in
  let isValid := scopeFound scopes reqScope in
  if negb isValid then mret (Some errInsufficientScope)
  else mret None.

(** The machine with another state of the world, the clock with it. *)
Definition atWorld (w : World) (σ : Machine) : Machine :=
  {| client := client σ; configs := configs σ; world := w |}.

End ClientRest.

Section ClientBuilt.
Context `{Collaborators}.

(** The client that [NewDefaultClient] builds for the pointer [p] once the
    [Config] behind it is [cfg]. *)
Definition clientOf (p : positive) (cfg : Config) : DefaultClient :=
  {| keys := ∅;
     clientAccessToken := "";
     config := Some p;
     rolePermissionCache :=
       cache.New (RolesCacheExpirationTime cfg)
                 (2 * RolesCacheExpirationTime cfg);
     revocationFilter := None;
     revokedUsers := ∅;
     tokenRefreshActive := false;
     localValidationActive := false;
     jwksRefreshError := None;
     revocationListRefreshError := None;
     tokenRefreshError := None;
     baseURICache := cache.New baseURICacheExpiration baseURICacheExpiration;
     httpClient := netHTTPClient |}.

End ClientBuilt.

Section SubjectLevelCheck.
Context `{Collaborators}.

(** Modelled from the spec: [userRevoked] is defined in another file of
    the package.  The subject-level check as the testable property of
    section 8 words it: a token of a subject with revocation timestamp T
    is rejected when its issued-at time is before T, and accepted when it
    is T or later.  It differs from [userRevoked], which follows section
    4.1, at issued-at = T only. *)
Definition userRevokedStrict (userID : string) (issuedAt : Z) : M bool :=
  revoked ← gets revokedUsers;
  mret (match revoked !! userID with
        | Some revokedAt => bool_decide (issuedAt < revokedAt)
        | None => false
        end).

(** [ValidateAndParseClaims], the same lines of the source, with the
    subject-level check, which the source calls and another file defines,
    as the parameter [userRevoked]. *)
Definition ValidateAndParseClaimsWith (userRevoked : string → Z → M bool)
    (accessToken : string) : M (option JWTClaims * option error) :=
  active ← gets localValidationActive;
  if negb active then mret (None, Some errLocalValidationNotActive)
  else
    '(claims, err) ← call (EvValidateJWT accessToken) (validateJWT accessToken);
    match err with
    | Some e => mret (None, Some (Errorf "unable to verify JWT : " e))
    | None =>
        c ← deref claims;
        revoked ← userRevoked (Subject c) (IssuedAt c);
        if (revoked : bool) then mret (None, Some errUserRevoked)
        else
          revoked ← call (EvTokenRevoked accessToken) (tokenRevoked accessToken);
          if (revoked : bool) then mret (None, Some errTokenRevoked)
          else mret (claims, None)
    end.

(** What the two sentences of the specification on the subject-level
    check agree on: the check reads the client and answers, and for a
    subject with revocation timestamp T it answers revoked when the token
    was issued before T and not revoked when it was issued after T.
    Nothing is said of a token issued at T. *)
Definition subject_level_check (check : string → Z → M bool) : Prop :=
  ∀ userID issuedAt σ,
    ∃ b, check userID issuedAt σ = (Some b, σ, []) ∧
         ∀ T, revokedUsers (client σ) !! userID = Some T →
              (issuedAt < T → b = true) ∧ (T < issuedAt → b = false).

End SubjectLevelCheck.

(** Further inputs in the concrete setting. *)
Module DemoRest.
Import Demo.
#[local] Existing Instance outside.

(** Alice's token with its flags (e-mail verified, anonymous), one ban and
    three scopes. *)
Definition aliceFull : Claims := {|
  jwt := alice;
  JusticeFlags := 5;
  Bans := [{| Ban := "CHAT" |}];
  Scope := "account commerce social"
|}.

(** A token whose roles are all unknown to the role store. *)
Definition stranger : JWTClaims := {|
  Namespace := "accel";
  Roles := ["ghost"; "phantom"];
  Permissions := [];
  Subject := "carol";
  IssuedAt := 1000;
  Audience := Some []
|}.

(** A token with the role "mod" behind an unknown one. *)
Definition moderator : JWTClaims := {|
  Namespace := "accel";
  Roles := ["ghost"; "mod"; "down"];
  Permissions := [];
  Subject := "dave";
  IssuedAt := 1000;
  Audience := Some ["https://other.example"]
|}.

Definition roleResource : Permission :=
  {| Resource := "NAMESPACE:accel:ROLE"; Action := 2 |}.

(** A token without scope. *)
Definition noScope : Claims := {|
  jwt := alice;
  JusticeFlags := 0;
  Bans := [];
  Scope := ""
|}.

(** A transport that answers every request with status 403. *)
Definition forbidding : HTTPClient := {|
  Do := λ _ w,
    ((Some {| StatusCode := 403; Body := ("forbidden", None) |}, None), w + 1)
|}.

(** Activated, with the transport that answers 403. *)
Definition forbidden : Machine := machineWith (clientWith true ∅ forbidding).

Definition infoURL : string :=
  "https://iam.example/v3/admin/namespaces/accel/clients/client-1".

(** What [NewDefaultClient] returns for the pointer to [config0]. *)
Definition built : option (DefaultClient * gmap positive Config) :=
  @NewDefaultClient outside collaborators (Some 1%positive) heap0.

(** Collaborators as in [Demo], but the keys and the revocation list can
    be fetched, and the JWT verification returns nothing at all for the
    token "void". *)
Definition collaboratorsUp : Collaborators := {|
  errRoleNotFoundText := "role not found";
  getJWKS := λ σ, (None, σ);
  getRevocationList := λ σ, (None, σ);
  validateJWT := λ accessToken σ,
    if String.eqb accessToken "token-of-alice" then ((Some alice, None), σ)
    else if String.eqb accessToken "void" then ((None, None), σ)
    else ((None, Some (errorString "malformed token")), σ);
  tokenRevoked := λ _ σ, (false, σ);
  getRolePermission := λ roleID σ, (([], Some errRoleNotFound), σ);
  permissionAllowed := matches;
  applyUserPermissionResourceValues := λ granted _, granted;
  httpNewRequest := λ method url,
    (Some {| Method := method; URL := url; Header := [] |}, None);
  jsonUnmarshalClientInformation := λ body, (body, None);
  netHTTPClient := answering
|}.

(** The machine that a successful start leaves from [idle]. *)
Definition started : Machine :=
  (@StartLocalValidation outside collaboratorsUp idle).1.2.

(** Activated; alice was revoked at time 1001. *)
Definition activeLater : Machine :=
  machineWith (clientWith true {[ "alice" := 1001 ]} answering).

End DemoRest.

(** * Properties *)

(** ** Running computations *)

Section Run.
Context `{Collaborators}.

Lemma run_ret {A : Type} (a : A) (σ : Machine) :
  mret (M := M) a σ = (Some a, σ, []).
Proof. reflexivity. Qed.

Lemma run_bind {A B : Type} (x : M A) (f : A → M B) (σ : Machine) :
  (x ≫= f) σ =
  match x σ with
  | (Some a, σ', t) => let '(r, σ'', t') := f a σ' in (r, σ'', t ++ t')
  | (None, σ', t) => (None, σ', t)
  end.
Proof. reflexivity. Qed.

Lemma run_bind_pure {A B : Type} (x : M A) (f : A → M B) (σ : Machine) (a : A) :
  x σ = (Some a, σ, []) → (x ≫= f) σ = f a σ.
Proof.
  intros Hx. rewrite run_bind, Hx. by destruct (f a σ) as [[r σ''] t'].
Qed.

Lemma run_call {A : Type} (ev : Event) (f : Machine → A * Machine)
    (σ σ' : Machine) (a : A) :
  f σ = (a, σ') → call ev f σ = (Some a, σ', [ev]).
Proof. intros Hf. unfold call. by rewrite Hf. Qed.

Lemma run_gets {A : Type} (f : DefaultClient → A) (σ : Machine) :
  gets f σ = (Some (f (client σ)), σ, []).
Proof. reflexivity. Qed.

End Run.

(** Unfold the monad and compute. *)
Ltac run :=
  repeat (unfold mbind, M_bind, mret, M_ret, call, gets, emit, panic, deref,
          setClient, now, getConfig; simpl).

(** ** HealthCheck *)

Section HealthCheckFacts.
Context `{Outside}.

(** C8. [HealthCheck] returns true exactly when no key-refresh error and
    no revocation-refresh error is recorded and, when the bearer-token
    refresh is active, no bearer-token-refresh error is recorded; when the
    bearer-token refresh is not active, the recorded bearer-token-refresh
    error has no influence on the result. *)
Theorem HealthCheck_healthy_iff (c : DefaultClient) :
  (HealthCheck c = true ↔
     jwksRefreshError c = None ∧
     revocationListRefreshError c = None ∧
     (tokenRefreshActive c = true → tokenRefreshError c = None))
  ∧ (∀ e, tokenRefreshActive c = false →
          HealthCheck (withTokenRefreshError e c) = HealthCheck c).
Proof.
  split.
  - unfold HealthCheck.
    destruct (jwksRefreshError c) as [e1|], (revocationListRefreshError c) as [e2|],
      (tokenRefreshActive c), (tokenRefreshError c) as [e3|]; simpl;
      (split; [intros Hc; try discriminate Hc; repeat split; congruence
              |intros (Hj & Hr & Ht); try discriminate Hj; try discriminate Hr;
               try reflexivity; by specialize (Ht eq_refl)]).
  - intros e Hoff. unfold HealthCheck, withTokenRefreshError. simpl.
    by rewrite Hoff.
Qed.

End HealthCheckFacts.

(** ** NewDefaultClient *)

Section NewDefaultClientFacts.
Context `{Collaborators}.

(** C9. [NewDefaultClient] writes through the caller's pointer: the
    [Config] object it points to is replaced in the heap by one in which
    each of the three durations that was non-positive is 60 seconds, and
    every other field (the three strings, and each positive duration) is
    as the caller set it; the client keeps the same pointer, and no other
    object of the heap changes. *)
Theorem NewDefaultClient_config_in_place
    (p : positive) (heap : gmap positive Config) (cfg : Config) :
  heap !! p = Some cfg →
  ∃ c cfg',
    NewDefaultClient (Some p) heap = Some (c, <[p := cfg']> heap) ∧
    config c = Some p ∧
    RolesCacheExpirationTime cfg' =
      (if decide (RolesCacheExpirationTime cfg ≤ 0) then 60 * Second
       else RolesCacheExpirationTime cfg) ∧
    JWKSRefreshInterval cfg' =
      (if decide (JWKSRefreshInterval cfg ≤ 0) then 60 * Second
       else JWKSRefreshInterval cfg) ∧
    RevocationListRefreshInterval cfg' =
      (if decide (RevocationListRefreshInterval cfg ≤ 0) then 60 * Second
       else RevocationListRefreshInterval cfg) ∧
    BaseURL cfg' = BaseURL cfg ∧
    ClientID cfg' = ClientID cfg ∧
    ClientSecret cfg' = ClientSecret cfg ∧
    (∀ q, q ≠ p → (<[p := cfg']> heap) !! q = heap !! q).
Proof.
  intros Hp. unfold NewDefaultClient. simpl. rewrite Hp. simpl.
  eexists _, _. split; [reflexivity|].
  split; [reflexivity|].
  destruct cfg as [bu ci cs r j v]; simpl.
  repeat split;
    try (repeat (case_decide; simpl); done).
  intros q Hq. by rewrite lookup_insert_ne.
Qed.

(** A new client has local validation switched off. *)
Lemma NewDefaultClient_inactive config heap c heap' :
  NewDefaultClient config heap = Some (c, heap') →
  localValidationActive c = false.
Proof.
  unfold NewDefaultClient. intros Hnew.
  destruct config as [p|]; simpl in Hnew; [|done].
  destruct (heap !! p) as [cfg|]; simpl in Hnew; [|done].
  by inversion Hnew.
Qed.

End NewDefaultClientFacts.

(** ** ValidateAndParseClaims: activation *)

Section Activation.
Context `{Collaborators}.

Lemma ValidateAndParseClaims_inactive (accessToken : string) (σ : Machine) :
  localValidationActive (client σ) = false →
  ValidateAndParseClaims accessToken σ =
    (Some (None, Some errLocalValidationNotActive), σ, []).
Proof.
  intros Hoff. unfold ValidateAndParseClaims.
  rewrite (run_bind_pure _ _ σ false); [reflexivity|].
  by rewrite run_gets, Hoff.
Qed.

(** [StartLocalValidation] switches local validation on only when it
    returns nil: when it returns an error, the flag is as the last
    collaborator it called left it. *)
Lemma StartLocalValidation_error (σ σ' : Machine) (e : error) (t : list Event) :
  StartLocalValidation σ = (Some (Some e), σ', t) →
  (∃ e1, getJWKS σ = (Some e1, σ')) ∨
  (∃ σ1 e2, getJWKS σ = (None, σ1) ∧ getRevocationList σ1 = (Some e2, σ')).
Proof.
  unfold StartLocalValidation. rewrite run_bind. unfold call.
  destruct (getJWKS σ) as [[e1|] σ1] eqn:Hj; simpl.
  - intros Heq. inversion Heq; subst. left. by eexists.
  - rewrite run_bind. unfold call.
    destruct (getRevocationList σ1) as [[e2|] σ2] eqn:Hr; simpl.
    + intros Heq. inversion Heq; subst. right. by eexists _, _.
    + run. intros Heq. inversion Heq.
Qed.

Lemma StartLocalValidation_ok (σ σ' : Machine) (t : list Event) :
  StartLocalValidation σ = (Some None, σ', t) →
  localValidationActive (client σ') = true.
Proof.
  unfold StartLocalValidation. rewrite run_bind. unfold call.
  destruct (getJWKS σ) as [[e1|] σ1] eqn:Hj; simpl; [intros Heq; inversion Heq|].
  rewrite run_bind. unfold call.
  destruct (getRevocationList σ1) as [[e2|] σ2] eqn:Hr; simpl;
    [intros Heq; inversion Heq|].
  run. intros Heq. by inversion Heq.
Qed.

(** C6. While local validation is not active, [ValidateAndParseClaims]
    returns nil claims and the not-activated error for every token; it
    runs no signature verification and no revocation check (the trace of
    calls is empty) and leaves the machine as it found it.  This is still
    so after a [StartLocalValidation] that returned an error, the two
    fetches it makes leaving the activation flag alone. *)
Theorem ValidateAndParseClaims_not_activated (accessToken : string) (σ : Machine) :
  localValidationActive (client σ) = false →
  ValidateAndParseClaims accessToken σ =
    (Some (None, Some errLocalValidationNotActive), σ, [])
  ∧ (∀ e σ' t,
       (∀ σ0, localValidationActive (client (getJWKS σ0).2)
              = localValidationActive (client σ0)) →
       (∀ σ0, localValidationActive (client (getRevocationList σ0).2)
              = localValidationActive (client σ0)) →
       StartLocalValidation σ = (Some (Some e), σ', t) →
       ValidateAndParseClaims accessToken σ' =
         (Some (None, Some errLocalValidationNotActive), σ', [])).
Proof.
  intros Hoff. split; [by apply ValidateAndParseClaims_inactive|].
  intros e σ' t Hjwks Hrevo Hstart.
  apply ValidateAndParseClaims_inactive.
  destruct (StartLocalValidation_error _ _ _ _ Hstart)
    as [[e1 Hj]|(σ1 & e2 & Hj & Hr)].
  - specialize (Hjwks σ). rewrite Hj in Hjwks. simpl in Hjwks. congruence.
  - specialize (Hjwks σ). rewrite Hj in Hjwks. simpl in Hjwks.
    specialize (Hrevo σ1). rewrite Hr in Hrevo. simpl in Hrevo. congruence.
Qed.

End Activation.

(** ** Replacing the first occurrence *)

Section Strings.

Lemma append_nil_l (s : string) : EmptyString +:+ s = s.
Proof. reflexivity. Qed.

Lemma append_cons_l (c : Ascii.ascii) (s t : string) :
  String c s +:+ t = String c (s +:+ t).
Proof. reflexivity. Qed.

Ltac sapp := rewrite ?append_nil_l, ?append_cons_l in *; simpl in *.

Lemma HasPrefix_app (p rest : string) : HasPrefix (p +:+ rest) p = true.
Proof.
  induction p as [|a p IH]; sapp; [done|].
  by rewrite Ascii.eqb_refl.
Qed.

Lemma HasPrefix_inv (s p : string) :
  HasPrefix s p = true → s = p +:+ string_drop (String.length p) s.
Proof.
  revert s. induction p as [|a p IH]; intros s; [done|].
  destruct s as [|c s]; simpl; [done|].
  destruct (Ascii.eqb_spec c a) as [->|]; [|done].
  intros Hp. rewrite append_cons_l. f_equal. by apply IH.
Qed.

Lemma string_drop_app (p rest : string) :
  string_drop (String.length p) (p +:+ rest) = rest.
Proof. induction p as [|a p IH]; sapp; done. Qed.

Lemma length_zero_empty (s : string) : String.length s = 0%nat → s = EmptyString.
Proof. by destruct s. Qed.

Lemma occurs_at_0 (old s : string) :
  occurs_at 0 old s ↔ HasPrefix s old = true.
Proof.
  split.
  - intros (pre & post & -> & Hlen).
    apply length_zero_empty in Hlen as ->. rewrite append_nil_l.
    apply HasPrefix_app.
  - intros Hp. exists EmptyString, (string_drop (String.length old) s).
    split; [|done]. rewrite append_nil_l. by apply HasPrefix_inv.
Qed.

Lemma occurs_at_S (i : nat) (old : string) (c : Ascii.ascii) (s : string) :
  occurs_at (S i) old (String c s) ↔ occurs_at i old s.
Proof.
  split.
  - intros (pre & post & Heq & Hlen).
    destruct pre as [|c' pre]; sapp; [done|].
    injection Heq as -> ->. injection Hlen as Hlen.
    by exists pre, post.
  - intros (pre & post & -> & Hlen).
    exists (String c pre), post. sapp. by rewrite Hlen.
Qed.

Lemma occurs_at_empty (i : nat) (old : string) :
  occurs_at i old EmptyString → HasPrefix EmptyString old = true.
Proof.
  intros (pre & post & Heq & Hlen).
  destruct pre; sapp; [|done]. by destruct old.
Qed.

Lemma Replace1_unfold (s old new : string) :
  Replace1 s old new =
  if HasPrefix s old then new +:+ string_drop (String.length old) s
  else match s with
       | EmptyString => EmptyString
       | String c s' => String c (Replace1 s' old new)
       end.
Proof. by destruct s. Qed.

(** The search of [Replace1] finds the leftmost occurrence. *)
Lemma Replace1_cases (s old new : string) :
  (Replace1 s old new = s ∧ ∀ i, ¬ occurs_at i old s) ∨
  (∃ pre post,
     s = pre +:+ old +:+ post ∧
     (∀ i, (i < String.length pre)%nat → ¬ occurs_at i old s) ∧
     Replace1 s old new = pre +:+ new +:+ post).
Proof.
  induction s as [|c s IH]; rewrite Replace1_unfold.
  - destruct (HasPrefix EmptyString old) eqn:Hp.
    + right. exists EmptyString, (string_drop (String.length old) EmptyString).
      rewrite !append_nil_l.
      split; [by apply HasPrefix_inv|]. split; [simpl; lia|done].
    + left. split; [done|]. intros i Hocc.
      apply occurs_at_empty in Hocc. congruence.
  - destruct (HasPrefix (String c s) old) eqn:Hp.
    + right. exists EmptyString, (string_drop (String.length old) (String c s)).
      rewrite !append_nil_l.
      split; [by apply HasPrefix_inv|]. split; [simpl; lia|done].
    + destruct IH as [[Heq Habs]|(pre & post & Hs & Hmin & Heq)].
      * left. rewrite Heq. split; [done|].
        intros [|i] Hocc.
        -- apply occurs_at_0 in Hocc. congruence.
        -- apply occurs_at_S in Hocc. by apply (Habs i).
      * right. exists (String c pre), post. rewrite !append_cons_l.
        split; [by rewrite Hs at 1|]. split; [|by rewrite Heq].
        intros [|i] Hi Hocc.
        -- apply occurs_at_0 in Hocc. congruence.
        -- apply occurs_at_S in Hocc. simpl in Hi. apply (Hmin i); [lia|done].
Qed.

Lemma Replace1_first_replaced (s old new : string) :
  first_replaced old new s (Replace1 s old new).
Proof.
  destruct (Replace1_cases s old new) as [[Heq Habs]|(pre & post & Hs & Hmin & Heq)];
    rewrite Heq.
  - by constructor.
  - by apply first_replaced_at.
Qed.

Lemma append_inj_length (a a' b b' : string) :
  String.length a = String.length a' →
  a +:+ b = a' +:+ b' → a = a' ∧ b = b'.
Proof.
  revert a'. induction a as [|c a IH]; intros [|c' a']; simpl; try done.
  rewrite !append_cons_l.
  intros Hlen Heq. injection Hlen as Hlen. injection Heq as -> Heq.
  destruct (IH a' Hlen Heq) as [-> ->]. done.
Qed.

(** [first_replaced] determines its result: it is the one of [Replace1]. *)
Lemma first_replaced_unique (s old new t : string) :
  first_replaced old new s t → t = Replace1 s old new.
Proof.
  intros Hfr.
  destruct (Replace1_cases s old new) as [[Heq Habs]|(pre & post & Hs & Hmin & Heq)];
    rewrite Heq; destruct Hfr as [Habs'|pre' post' Hs' Hmin']; try done.
  - exfalso. apply (Habs (String.length pre')). by exists pre', post'.
  - exfalso. apply (Habs' (String.length pre)). by exists pre, post.
  - assert (String.length pre' = String.length pre) as Hlen.
    { destruct (Nat.lt_trichotomy (String.length pre') (String.length pre))
        as [Hlt|[Heq'|Hgt]]; [|done|].
      - exfalso. apply (Hmin _ Hlt). by exists pre', post'.
      - exfalso. apply (Hmin' _ Hgt). by exists pre, post. }
    rewrite Hs in Hs'.
    destruct (append_inj_length pre pre' _ _ (eq_sym Hlen) Hs') as [-> Hrest].
    destruct (append_inj_length old old _ _ eq_refl Hrest) as [_ ->]. done.
Qed.

Lemma Contains_occurs (s substr : string) :
  Contains s substr = true ↔ ∃ i, occurs_at i substr s.
Proof.
  induction s as [|c s IH].
  - simpl. destruct (HasPrefix EmptyString substr) eqn:Hp.
    + split; [|done]. intros _. exists 0%nat. by apply occurs_at_0.
    + split; [done|]. intros [i Hocc]. apply occurs_at_empty in Hocc. congruence.
  - change (Contains (String c s) substr) with
      (if HasPrefix (String c s) substr then true else Contains s substr).
    destruct (HasPrefix (String c s) substr) eqn:Hp.
    + split; [|done]. intros _. exists 0%nat. by apply occurs_at_0.
    + rewrite IH. split.
      * intros [i Hocc]. exists (S i). by apply occurs_at_S.
      * intros [[|i] Hocc].
        -- apply occurs_at_0 in Hocc. congruence.
        -- exists i. by apply occurs_at_S in Hocc.
Qed.

End Strings.

(** ** ValidatePermission *)

Section ValidatePermissionFacts.
Context `{Collaborators}.

Lemma replacePlaceholders_Action order req :
  Action (replacePlaceholders order req) = Action req.
Proof.
  revert req. induction order as [|[k v] rest IH]; intros req; simpl; [done|].
  by rewrite IH.
Qed.

Lemma replacePlaceholders_replaced order req :
  placeholders_replaced order (Resource req) (Resource (replacePlaceholders order req)).
Proof.
  revert req. induction order as [|[k v] rest IH]; intros req; simpl.
  - constructor.
  - econstructor; [apply Replace1_first_replaced|].
    apply (IH {| Resource := Replace1 (Resource req) k v; Action := Action req |}).
Qed.

(** The result of the loop is the only one that [placeholders_replaced]
    allows. *)
Lemma placeholders_replaced_unique order s t req :
  placeholders_replaced order s t → Resource req = s →
  t = Resource (replacePlaceholders order req).
Proof.
  intros Hpr. revert req.
  induction Hpr as [s|k v rest s s' s'' Hfr _ IH]; intros req Hreq; simpl.
  - done.
  - apply IH. simpl. rewrite Hreq. symmetry. by apply first_replaced_unique.
Qed.

Lemma range_order_lookup (m : gmap string string) order :
  range_order m order → ∀ k v, (k, v) ∈ order ↔ m !! k = Some v.
Proof.
  unfold range_order. intros Hperm k v.
  rewrite Hperm. apply elem_of_map_to_list.
Qed.

Lemma range_order_NoDup (m : gmap string string) order :
  range_order m order → NoDup order.*1.
Proof.
  unfold range_order. intros Hperm. rewrite Hperm.
  apply NoDup_fst_map_to_list.
Qed.

(** C1, as the code has it.  [ValidatePermission] applies each binding of
    the map once, in the order in which the map is visited, by replacing
    the first occurrence of the placeholder with its value (later
    occurrences stay); this is done before any matching: the call behaves
    as the call with the substituted permission and no bindings, the
    action is untouched. *)
Theorem ValidatePermission_replaces_first_occurrence
    (c : JWTClaims) (req : Permission) (m : gmap string string)
    (order : list (string * string)) (σ : Machine) :
  range_order m order →
  ∃ req',
    placeholders_replaced order (Resource req) (Resource req') ∧
    Action req' = Action req ∧
    (∀ k v, (k, v) ∈ order ↔ m !! k = Some v) ∧
    NoDup order.*1 ∧
    ValidatePermission (Some c) req order σ = ValidatePermission (Some c) req' [] σ.
Proof.
  intros Hrange. exists (replacePlaceholders order req).
  split; [apply replacePlaceholders_replaced|].
  split; [apply replacePlaceholders_Action|].
  split; [by apply range_order_lookup|].
  split; [by eapply range_order_NoDup|].
  reflexivity.
Qed.

(** C3. With nil claims [ValidatePermission] returns [(false, nil)]
    whatever the permission and the bindings are; nothing is looked up:
    the machine is unchanged, the trace of calls is empty, and the result
    does not depend on the match rule. *)
Theorem ValidatePermission_nil_claims
    (req : Permission) (order : list (string * string)) (σ : Machine) :
  ValidatePermission None req order σ = (Some (false, None), σ, []).
Proof. reflexivity. Qed.

(** C5. When the claims' own permissions allow the substituted required
    permission, [ValidatePermission] returns [(true, nil)] at once: no
    role is fetched (the trace of calls is empty) and the machine, the
    role cache with it, is as it was. *)
Theorem ValidatePermission_direct_match
    (c : JWTClaims) (req : Permission) (order : list (string * string))
    (σ : Machine) :
  permissionAllowed (Permissions c) (replacePlaceholders order req) = true →
  ValidatePermission (Some c) req order σ = (Some (true, None), σ, []).
Proof. intros Hallowed. unfold ValidatePermission. by rewrite Hallowed. Qed.

Lemma validateRoles_cons c req roleID rest σ :
  validateRoles c req (roleID :: rest) σ =
  match getRolePermission roleID σ with
  | ((_, Some e), σ') =>
      if decide (e = errRoleNotFound) then
        let '(r, σ'', t) := validateRoles c req rest σ' in
        (r, σ'', EvGetRolePermission roleID :: t)
      else (Some (false, Some e), σ', [EvGetRolePermission roleID])
  | ((granted, None), σ') =>
      if permissionAllowed (applyUserPermissionResourceValues granted c) req
      then (Some (true, None), σ', [EvGetRolePermission roleID])
      else
        let '(r, σ'', t) := validateRoles c req rest σ' in
        (r, σ'', EvGetRolePermission roleID :: t)
  end.
Proof.
  simpl. rewrite run_bind. unfold call.
  destruct (getRolePermission roleID σ) as [[granted [e|]] σ'].
  - destruct (decide (e = errRoleNotFound)); [|done].
    by destruct (validateRoles c req rest σ') as [[r σ''] t].
  - destruct (permissionAllowed _ _); [done|].
    by destruct (validateRoles c req rest σ') as [[r σ''] t].
Qed.

(** The loop over a list of roles in two parts: the second part runs when
    the first ended with neither a match nor an error. *)
Lemma validateRoles_app c req pre post σ :
  validateRoles c req (pre ++ post) σ =
  match validateRoles c req pre σ with
  | (Some (false, None), σ1, t1) =>
      let '(r, σ2, t2) := validateRoles c req post σ1 in (r, σ2, t1 ++ t2)
  | other => other
  end.
Proof.
  revert σ. induction pre as [|roleID pre IH]; intros σ.
  - simpl. by destruct (validateRoles c req post σ) as [[r σ2] t2].
  - rewrite <- app_comm_cons, !validateRoles_cons.
    destruct (getRolePermission roleID σ) as [[granted [e|]] σ'].
    + destruct (decide (e = errRoleNotFound)); [|done].
      rewrite IH.
      destruct (validateRoles c req pre σ') as [[[[[] [e'|]]|] σ1] t1]; try done.
      by destruct (validateRoles c req post σ1) as [[r σ2] t2].
    + destruct (permissionAllowed _ _); [done|].
      rewrite IH.
      destruct (validateRoles c req pre σ') as [[[[[] [e'|]]|] σ1] t1]; try done.
      by destruct (validateRoles c req post σ1) as [[r σ2] t2].
Qed.

(** The loop returns an error only with [false], and never the
    role-not-found sentinel. *)
Lemma validateRoles_error c req roles σ b e σ' t :
  validateRoles c req roles σ = (Some (b, Some e), σ', t) →
  b = false ∧ e ≠ errRoleNotFound.
Proof.
  revert σ t. induction roles as [|roleID rest IH]; intros σ t.
  - simpl. intros Heq. inversion Heq.
  - rewrite validateRoles_cons.
    destruct (getRolePermission roleID σ) as [[granted [e1|]] σ1].
    + destruct (decide (e1 = errRoleNotFound)).
      * destruct (validateRoles c req rest σ1) as [[r σ''] t'] eqn:Hrest.
        intros Heq. inversion Heq; subst. by eapply IH.
      * intros Heq. by inversion Heq; subst.
    + destruct (permissionAllowed _ _); [intros Heq; inversion Heq|].
      destruct (validateRoles c req rest σ1) as [[r σ''] t'] eqn:Hrest.
      intros Heq. inversion Heq; subst. by eapply IH.
Qed.

(** C4. In the iteration over the roles of the token (reached when the
    direct permissions do not match), let [roleID] be a role that is
    reached, the roles before it having given neither a match nor an
    error, and let its fetch report an error.  If the error is
    role-not-found, the role is skipped: the result is that of the
    iteration over the roles after it, from the machine the fetch left.
    Any other error ends the resolution at once: it is returned with
    [false], and no later role is fetched.  An error that
    [ValidatePermission] returns is never role-not-found and always comes
    with [false]. *)
Theorem ValidatePermission_role_fetch_error
    (c : JWTClaims) (req : Permission) (order : list (string * string))
    (pre post : list string) (roleID : string)
    (σ σ1 σ2 : Machine) (t1 : list Event)
    (granted : list Permission) (e : error) :
  permissionAllowed (Permissions c) (replacePlaceholders order req) = false →
  Roles c = pre ++ roleID :: post →
  validateRoles c (replacePlaceholders order req) pre σ = (Some (false, None), σ1, t1) →
  getRolePermission roleID σ1 = ((granted, Some e), σ2) →
  (e = errRoleNotFound →
     ValidatePermission (Some c) req order σ =
     let '(r, σ3, t3) := validateRoles c (replacePlaceholders order req) post σ2 in
     (r, σ3, t1 ++ EvGetRolePermission roleID :: t3))
  ∧ (e ≠ errRoleNotFound →
     ValidatePermission (Some c) req order σ =
     (Some (false, Some e), σ2, t1 ++ [EvGetRolePermission roleID]))
  ∧ (∀ b e' σ' t,
       ValidatePermission (Some c) req order σ = (Some (b, Some e'), σ', t) →
       b = false ∧ e' ≠ errRoleNotFound).
Proof.
  intros Hdirect Hroles Hpre Hfetch.
  unfold ValidatePermission. rewrite Hdirect.
  split; [|split].
  - intros ->.
    rewrite Hroles, validateRoles_app, Hpre, validateRoles_cons, Hfetch.
    rewrite decide_True by done.
    by destruct (validateRoles _ _ post σ2) as [[r σ3] t3].
  - intros Hne.
    rewrite Hroles, validateRoles_app, Hpre, validateRoles_cons, Hfetch.
    by rewrite decide_False by done.
  - intros b e' σ' t Heq. by eapply validateRoles_error.
Qed.

End ValidatePermissionFacts.

(** ** ValidateAndParseClaims: revoked subjects *)

Section Revocation.
Context `{Collaborators}.

(** [ValidateAndParseClaims] is [ValidateAndParseClaimsWith] at the
    subject-level check [userRevoked]. *)
Lemma ValidateAndParseClaims_With (accessToken : string) :
  ValidateAndParseClaims accessToken
  = ValidateAndParseClaimsWith userRevoked accessToken.
Proof. reflexivity. Qed.

(** Both readings of the specification are subject-level checks. *)
Lemma userRevoked_subject_level_check : subject_level_check userRevoked.
Proof.
  intros userID issuedAt σ. unfold userRevoked.
  rewrite (run_bind_pure _ _ σ (revokedUsers (client σ))) by done.
  eexists. split; [done|]. intros T ->. split; intros Hlt.
  - apply bool_decide_eq_true_2. lia.
  - apply bool_decide_eq_false_2. lia.
Qed.

Lemma userRevokedStrict_subject_level_check :
  subject_level_check userRevokedStrict.
Proof.
  intros userID issuedAt σ. unfold userRevokedStrict.
  rewrite (run_bind_pure _ _ σ (revokedUsers (client σ))) by done.
  eexists. split; [done|]. intros T ->. split; intros Hlt.
  - apply bool_decide_eq_true_2. lia.
  - apply bool_decide_eq_false_2. lia.
Qed.

(** An active run on a token that verifies, in terms of the answer of the
    subject-level check. *)
Lemma run_ValidateAndParseClaimsWith
    (check : string → Z → M bool) (accessToken : string)
    (σ σ1 : Machine) (c : JWTClaims) (b : bool) :
  localValidationActive (client σ) = true →
  validateJWT accessToken σ = ((Some c, None), σ1) →
  check (Subject c) (IssuedAt c) σ1 = (Some b, σ1, []) →
  ValidateAndParseClaimsWith check accessToken σ =
  if b then (Some (None, Some errUserRevoked), σ1, [EvValidateJWT accessToken])
  else
    let '(revoked, σ2) := tokenRevoked accessToken σ1 in
    (Some (if revoked then (None, Some errTokenRevoked) else (Some c, None)),
     σ2, [EvValidateJWT accessToken; EvTokenRevoked accessToken]).
Proof.
  intros Hon Hjwt Hcheck. unfold ValidateAndParseClaimsWith.
  rewrite (run_bind_pure _ _ σ true) by (by rewrite run_gets, Hon).
  lazy beta iota delta [negb].
  rewrite run_bind, (run_call _ _ _ _ _ Hjwt). lazy beta iota.
  rewrite (run_bind_pure _ _ σ1 c) by done.
  rewrite (run_bind_pure _ _ σ1 b) by done.
  destruct b; [done|].
  rewrite run_bind. unfold call.
  by destruct (tokenRevoked accessToken σ1) as [[] σ2].
Qed.

(** C2, as far as the source and the specification settle it.  The
    subject-level check is any check on which the two sentences of the
    specification agree.  For an active client and a token that verifies,
    whose subject is in the revoked-subject map with timestamp [T]: the
    token is rejected with the user-revoked error, before the token-level
    check is made, when it was issued before [T]; when it was issued after
    [T], the subject-level check passes and the outcome is that of the
    token-level check, the token-revoked error or the claims; when it was
    issued at [T], the outcome is one of these two and not both, as the
    check answers. *)
Theorem ValidateAndParseClaims_subject_check
    (check : string → Z → M bool) (accessToken : string)
    (σ σ1 : Machine) (c : JWTClaims) (T : Z) :
  subject_level_check check →
  localValidationActive (client σ) = true →
  validateJWT accessToken σ = ((Some c, None), σ1) →
  revokedUsers (client σ1) !! Subject c = Some T →
  (IssuedAt c < T →
     ValidateAndParseClaimsWith check accessToken σ =
     (Some (None, Some errUserRevoked), σ1, [EvValidateJWT accessToken]))
  ∧ (T < IssuedAt c →
     ∀ revoked σ2, tokenRevoked accessToken σ1 = (revoked, σ2) →
     ValidateAndParseClaimsWith check accessToken σ =
     (Some (if revoked then (None, Some errTokenRevoked) else (Some c, None)),
      σ2, [EvValidateJWT accessToken; EvTokenRevoked accessToken]))
  ∧ (IssuedAt c = T →
     ∀ revoked σ2, tokenRevoked accessToken σ1 = (revoked, σ2) →
     (ValidateAndParseClaimsWith check accessToken σ =
      (Some (None, Some errUserRevoked), σ1, [EvValidateJWT accessToken])
      ∨ ValidateAndParseClaimsWith check accessToken σ =
        (Some (if revoked then (None, Some errTokenRevoked) else (Some c, None)),
         σ2, [EvValidateJWT accessToken; EvTokenRevoked accessToken]))
     ∧ ¬ (ValidateAndParseClaimsWith check accessToken σ =
          (Some (None, Some errUserRevoked), σ1, [EvValidateJWT accessToken])
          ∧ ValidateAndParseClaimsWith check accessToken σ =
            (Some (if revoked then (None, Some errTokenRevoked)
                   else (Some c, None)),
             σ2, [EvValidateJWT accessToken; EvTokenRevoked accessToken]))).
Proof.
  intros Hcheck Hon Hjwt Hrev.
  destruct (Hcheck (Subject c) (IssuedAt c) σ1) as (b & Hb & Hagreed).
  destruct (Hagreed T Hrev) as [Hbefore Hafter].
  rewrite (run_ValidateAndParseClaimsWith check accessToken σ σ1 c b) by done.
  split; [|split].
  - intros Hlt. by rewrite (Hbefore Hlt).
  - intros Hlt revoked σ2 Htok. by rewrite (Hafter Hlt), Htok.
  - intros _ revoked σ2 Htok. rewrite Htok. split.
    + destruct b; [by left|by right].
    + intros [Hrejected Haccepted]. rewrite Hrejected in Haccepted.
      by injection Haccepted.
Qed.

(** A subject that is not in the map passes the subject-level check. *)
Lemma userRevoked_absent (userID : string) (issuedAt : Z) (σ : Machine) :
  revokedUsers (client σ) !! userID = None →
  userRevoked userID issuedAt σ = (Some false, σ, []).
Proof.
  intros Hnone. unfold userRevoked.
  rewrite (run_bind_pure _ _ σ (revokedUsers (client σ))) by done.
  by rewrite Hnone.
Qed.

End Revocation.

(** ** ValidateAudience *)

Section Audience.
Context `{Collaborators}.

Lemma cache_Get_Set {V : Type} (t : Z) (k : string) (x : V) (d : Z)
    (c : cache.Cache V) :
  cache.Get t k (cache.Set_ t k x d c) = Some x.
Proof.
  unfold cache.Get, cache.Set_. simpl. rewrite lookup_insert_eq. simpl.
  repeat case_decide; try done; lia.
Qed.

Lemma run_cacheGetBaseURI (σ : Machine) :
  cacheGetBaseURI σ = (Some (cachedBaseURI σ), σ, []).
Proof. reflexivity. Qed.

Lemma audienceAllowed_elem_of (audience : list string) (u : string) :
  audienceAllowed audience (Some u) = bool_decide (u ∈ audience).
Proof.
  induction audience as [|reqAud rest IH]; cbn [audienceAllowed].
  - rewrite bool_decide_eq_false_2; [done|]. apply not_elem_of_nil.
  - destruct (decide (Some reqAud = Some u)) as [Heq|Hne].
    + injection Heq as ->. rewrite bool_decide_eq_true_2; [done|]. by left.
    + rewrite IH. apply bool_decide_ext. rewrite elem_of_cons.
      split; [by right|]. intros [->|]; done.
Qed.

Lemma run_checkAudience (audience : list string) (u : string) (σ : Machine) :
  checkAudience audience (Some u) σ =
  (Some (if decide (u ∈ audience) then None else Some errAudienceMismatch), σ, []).
Proof.
  unfold checkAudience. rewrite audienceAllowed_elem_of.
  destruct (decide (u ∈ audience)) as [Hin|Hnin].
  - by rewrite bool_decide_eq_true_2.
  - by rewrite bool_decide_eq_false_2.
Qed.

(** A fetch that returns nil got status 200 from the transport, decoded
    the body, and left the decoded base URI in the cache; it touches
    neither the configuration nor the pointer to it. *)
Lemma getClientInformation_ok (url : string) (σ σ' : Machine) (t : list Event) :
  getClientInformation url σ = (Some None, σ', t) →
  ∃ req resp body u,
    t = [EvHTTPDo req] ∧
    Do (httpClient (client σ)) req (world σ) = ((Some resp, None), world σ') ∧
    StatusCode resp = StatusOK ∧
    Body resp = (body, None) ∧
    jsonUnmarshalClientInformation body = (u, None) ∧
    cachedBaseURI σ' = Some u.
Proof.
  unfold getClientInformation.
  destruct (httpNewRequest MethodGet url) as [req [e|]]; [by intros [=]|].
  destruct req as [req|]; [|by intros [=]].
  run. unfold httpDo.
  destruct (Do _ _ _) as [[resp [e|]] w] eqn:HDo; simpl; [by intros [=]|].
  destruct resp as [resp|]; simpl; [|by intros [=]].
  destruct (Body resp) as [body [e|]] eqn:Hbody; simpl; [by intros [=]|].
  destruct (decide (StatusCode resp ≠ StatusOK)) as [Hne|Hok]; simpl;
    [by intros [=]|].
  destruct (jsonUnmarshalClientInformation body) as [u [e|]] eqn:Hjson; simpl;
    [by intros [=]|].
  unfold cacheSetBaseURI. run. intros [= <- <-].
  eexists _, resp, body, u. split; [done|]. simpl.
  split; [exact HDo|]. split; [by apply dec_stable|].
  split; [done|]. split; [done|].
  unfold cachedBaseURI. simpl. apply cache_Get_Set.
Qed.

(** C7, as the code has it.  Without an audience in the claims,
    [ValidateAudience] returns nil and only prints a notice: no request is
    made.  With an audience and the base URI in the cache, it returns nil
    when one of the audience entries is that base URI and the
    audience-mismatch error when none is, again without a request.  With
    an audience and no base URI in the cache, the client information is
    fetched: when the fetch returns nil, the base URI is in the cache
    afterwards and the answer is given against it in the same way; when
    the fetch returns an error, that error is returned as it is. *)
Theorem ValidateAudience_outcome (c : JWTClaims) (σ : Machine) :
  (Audience c = None →
     ValidateAudience (Some c) σ = (Some None, σ, [EvPrintf noAudienceText]))
  ∧ (∀ audience u,
       Audience c = Some audience →
       cachedBaseURI σ = Some u →
       ValidateAudience (Some c) σ =
       (Some (if decide (u ∈ audience) then None else Some errAudienceMismatch),
        σ, []))
  ∧ (∀ audience p cfg r σ' t,
       Audience c = Some audience →
       cachedBaseURI σ = None →
       config (client σ) = Some p →
       configs σ !! p = Some cfg →
       getClientInformation
         (BaseURL cfg +:+ clientInformationPath (Namespace c) (ClientID cfg)) σ
         = (Some r, σ', t) →
       match r with
       | None =>
           ∃ u, cachedBaseURI σ' = Some u ∧
                ValidateAudience (Some c) σ =
                (Some (if decide (u ∈ audience) then None
                       else Some errAudienceMismatch), σ', t)
       | Some e =>
           ValidateAudience (Some c) σ =
           (Some (Some e), σ',
            t ++ [EvPrintf ("[IAM-Go-SDK] get client detail returns error: "
                            +:+ Error e +:+ newline)])
       end).
Proof.
  split; [|split].
  - intros Haud. unfold ValidateAudience. by rewrite Haud.
  - intros audience u Haud Hhit. unfold ValidateAudience. rewrite Haud.
    rewrite (run_bind_pure _ _ σ (Some u)) by (by rewrite run_cacheGetBaseURI, Hhit).
    apply run_checkAudience.
  - intros audience p cfg r σ' t Haud Hmiss Hp Hcfg Hfetch.
    assert (getConfig σ = (Some cfg, σ, [])) as Hget.
    { unfold getConfig. by rewrite Hp, Hcfg. }
    unfold ValidateAudience. rewrite Haud.
    rewrite (run_bind_pure _ _ σ None) by (by rewrite run_cacheGetBaseURI, Hmiss).
    rewrite (run_bind_pure _ _ σ cfg) by done.
    rewrite (run_bind_pure _ _ σ cfg) by done.
    rewrite run_bind, Hfetch.
    destruct r as [e|].
    + by run.
    + destruct (getClientInformation_ok _ _ _ _ Hfetch)
        as (req & resp & body & u & _ & _ & _ & _ & _ & Hcached).
      exists u. split; [done|].
      rewrite (run_bind_pure _ _ σ' (Some u))
        by (by rewrite run_cacheGetBaseURI, Hcached).
      rewrite run_checkAudience. by rewrite app_nil_r.
Qed.

(** C10. With nil claims [ValidateAudience] returns an error, the
    claims-is-nil error, and does nothing else; [ValidatePermission] with
    nil claims denies without an error. *)
Theorem ValidateAudience_nil_claims
    (req : Permission) (order : list (string * string)) (σ : Machine) :
  (∃ e, ValidateAudience None σ = (Some (Some e), σ, []) ∧ e = errClaimsNil)
  ∧ ValidatePermission None req order σ = (Some (false, None), σ, []).
Proof. split; [by exists errClaimsNil|reflexivity]. Qed.

End Audience.


(** * The theorems at concrete inputs *)

Module Examples.
Import Demo.
#[local] Existing Instance outside.
#[local] Existing Instance collaborators.

(** The example of the documentation: both placeholders occur once and
    are replaced, and the token's own permission matches. *)
Lemma replaces_first_occurrence_witness :
  range_order userBindings [("{userId}", "42"); ("{namespace}", "accel")] ∧
  ∃ req',
    Action req' = 2 ∧
    ValidatePermission (Some alice) userPermission
      [("{userId}", "42"); ("{namespace}", "accel")] active
    = ValidatePermission (Some alice) req' [] active.
Proof.
  assert (range_order userBindings [("{userId}", "42"); ("{namespace}", "accel")])
    as Hrange by (vm_compute; reflexivity).
  split; [exact Hrange|].
  destruct (ValidatePermission_replaces_first_occurrence
              alice userPermission userBindings _ active Hrange)
    as (req' & _ & Haction & _ & _ & Hrun).
  exists req'. split; [exact Haction|exact Hrun].
Defined.

(** A placeholder that occurs twice is replaced once: the binding of
    [{a}] is in the map, the loop leaves ["x:{a}"], in which [{a}] still
    occurs, and that is the resource that is matched: claims that hold
    ["x:{a}"] are allowed, claims that hold ["x:x"] are not. *)
Lemma second_occurrence_remains :
  range_order bindA [("{a}", "x")] ∧
  bindA !! "{a}" = Some "x" ∧
  Resource (replacePlaceholders [("{a}", "x")] twice) = "x:{a}" ∧
  Contains (Resource (replacePlaceholders [("{a}", "x")] twice)) "{a}" = true ∧
  ValidatePermission (Some (holder "x:{a}")) twice [("{a}", "x")] active
    = (Some (true, None), active, []) ∧
  ValidatePermission (Some (holder "x:x")) twice [("{a}", "x")] active
    = (Some (false, None), active, []).
Proof.
  split; [vm_compute; reflexivity|].
  repeat split; vm_compute; reflexivity.
Qed.

(** Alice's token was issued at 1000.  Revoked at 1001, she is rejected;
    revoked at 999, she is accepted. *)
Lemma subject_check_witness :
  ValidateAndParseClaims "token-of-alice" DemoRest.activeLater
    = (Some (None, Some errUserRevoked), DemoRest.activeLater,
       [EvValidateJWT "token-of-alice"])
  ∧ ValidateAndParseClaims "token-of-alice" activeEarlier
    = (Some (Some alice, None), activeEarlier,
       [EvValidateJWT "token-of-alice"; EvTokenRevoked "token-of-alice"]).
Proof.
  rewrite !ValidateAndParseClaims_With.
  split.
  - refine (proj1 (ValidateAndParseClaims_subject_check userRevoked
                     "token-of-alice" DemoRest.activeLater DemoRest.activeLater
                     alice 1001 userRevoked_subject_level_check _ _ _) _);
      vm_compute; reflexivity.
  - refine (proj1 (proj2 (ValidateAndParseClaims_subject_check userRevoked
                     "token-of-alice" activeEarlier activeEarlier alice 999
                     userRevoked_subject_level_check _ _ _))
              _ false activeEarlier _);
      vm_compute; reflexivity.
Defined.

(** Alice was revoked at 1000 and her token was issued at 1000, so that
    both the rejection and the acceptance are asked for.  Under the
    reading of section 4.1 the token is rejected, under the reading of
    section 8 it is accepted, and under no subject-level check at all is
    it both. *)
Lemma boundary_not_both :
  revokedUsers (client active) !! Subject alice = Some 1000 ∧
  IssuedAt alice = 1000 ∧
  tokenRevoked "token-of-alice" active = (false, active) ∧
  ValidateAndParseClaimsWith userRevoked "token-of-alice" active
    = (Some (None, Some errUserRevoked), active, [EvValidateJWT "token-of-alice"]) ∧
  ValidateAndParseClaimsWith userRevokedStrict "token-of-alice" active
    = (Some (Some alice, None), active,
       [EvValidateJWT "token-of-alice"; EvTokenRevoked "token-of-alice"]) ∧
  (∀ check,
     ¬ (ValidateAndParseClaimsWith check "token-of-alice" active
        = (Some (None, Some errUserRevoked), active,
           [EvValidateJWT "token-of-alice"])
        ∧ ValidateAndParseClaimsWith check "token-of-alice" active
          = (Some (Some alice, None), active,
             [EvValidateJWT "token-of-alice"; EvTokenRevoked "token-of-alice"]))).
Proof.
  split; [vm_compute; reflexivity|].
  split; [reflexivity|].
  split; [reflexivity|].
  split; [vm_compute; reflexivity|].
  split; [vm_compute; reflexivity|].
  intros check [Hrejected Haccepted]. rewrite Hrejected in Haccepted.
  discriminate Haccepted.
Qed.

(** The role "ghost" is not in the role store and is skipped; the fetch of
    "down" fails otherwise and ends the resolution, "mod" is not fetched. *)
Lemma role_fetch_error_witness :
  ValidatePermission (Some alice) rolePermission namespaceBinding active
    = (let '(r, σ3, t3) :=
         validateRoles alice (replacePlaceholders namespaceBinding rolePermission)
           ["down"; "mod"] active in
       (r, σ3, [] ++ EvGetRolePermission "ghost" :: t3))
  ∧ ValidatePermission (Some alice) rolePermission namespaceBinding active
    = (Some (false, Some (errorString "role store is down")), active,
       [EvGetRolePermission "ghost"] ++ [EvGetRolePermission "down"]).
Proof.
  split.
  - refine (proj1 (ValidatePermission_role_fetch_error
                     alice rolePermission namespaceBinding [] ["down"; "mod"] "ghost"
                     active active active [] [] errRoleNotFound _ _ _ _) _);
      vm_compute; reflexivity.
  - refine (proj1 (proj2 (ValidatePermission_role_fetch_error
                     alice rolePermission namespaceBinding ["ghost"] ["mod"] "down"
                     active active active [EvGetRolePermission "ghost"] []
                     (errorString "role store is down") _ _ _ _)) _);
      vm_compute; first [reflexivity | discriminate].
Defined.

(** The example of the documentation: allowed by the token's own
    permission, without a role fetch. *)
Lemma direct_match_witness :
  ValidatePermission (Some alice) userPermission
    [("{namespace}", "accel"); ("{userId}", "42")] active
  = (Some (true, None), active, []).
Proof.
  apply ValidatePermission_direct_match. vm_compute. reflexivity.
Defined.

(** A new client refuses every token, and still does after a start that
    failed for want of keys. *)
Lemma not_activated_witness :
  ValidateAndParseClaims "token-of-alice" idle
    = (Some (None, Some errLocalValidationNotActive), idle, [])
  ∧ StartLocalValidation idle
    = (Some (Some (errorString "unable to get JWKS: connection refused")),
       idle, [EvGetJWKS])
  ∧ ValidateAndParseClaims "token-of-alice" (StartLocalValidation idle).1.2
    = (Some (None, Some errLocalValidationNotActive),
       (StartLocalValidation idle).1.2, []).
Proof.
  split; [|split; [reflexivity|]].
  - apply (ValidateAndParseClaims_not_activated "token-of-alice" idle).
    reflexivity.
  - refine (proj2 (ValidateAndParseClaims_not_activated "token-of-alice" idle _)
              (errorString "unable to get JWKS: connection refused") _ [EvGetJWKS]
              _ _ _);
      first [reflexivity | intros σ0; reflexivity].
Defined.

(** No audience: nil, although the transport cannot connect.  Base URI in
    the cache: nil without a request.  Base URI not in the cache: one
    request, and the answer against the fetched base URI. *)
Lemma audience_outcome_witness :
  ValidateAudience (Some aliceNoAudience) offline
    = (Some None, offline, [EvPrintf noAudienceText])
  ∧ ValidateAudience (Some alice) warm = (Some None, warm, [])
  ∧ ∃ u, cachedBaseURI warm = Some u ∧
         ValidateAudience (Some alice) active
         = (Some (if decide (u ∈ ["https://app.example"]) then None
                  else Some errAudienceMismatch),
            warm,
            [EvHTTPDo {| Method := "GET";
                         URL := "https://iam.example/v3/admin/namespaces/accel/clients/client-1";
                         Header := [("Content-Type", "application/json");
                                    ("Authorization", "Bearer bearer-1")] |}]).
Proof.
  split; [|split].
  - apply (proj1 (ValidateAudience_outcome aliceNoAudience offline)).
    reflexivity.
  - refine (proj1 (proj2 (ValidateAudience_outcome alice warm))
              ["https://app.example"] "https://app.example" _ _);
      vm_compute; reflexivity.
  - refine (proj2 (proj2 (ValidateAudience_outcome alice active))
              ["https://app.example"] 1%positive config0 None warm _ _ _ _ _ _);
      vm_compute; reflexivity.
Defined.

(** An audience that is the registered base URI, the base URI not yet in
    the cache, and a transport that cannot connect: the answer is neither
    nil nor the audience-mismatch error, it is the error of the fetch. *)
Lemma audience_fetch_error_returned :
  Audience alice = Some ["https://app.example"] ∧
  cachedBaseURI offline = None ∧
  (ValidateAudience (Some alice) offline).1.1
    = Some (Some (errorString
        "unable to do http request: dial tcp: connection refused")) ∧
  (ValidateAudience (Some alice) offline).1.1 ≠ Some None ∧
  (ValidateAudience (Some alice) offline).1.1 ≠ Some (Some errAudienceMismatch).
Proof.
  repeat split; vm_compute; first [reflexivity | discriminate].
Qed.

(** Two of the three durations are non-positive and become 60 seconds;
    the positive one and the strings stay. *)
Lemma config_in_place_witness :
  ∃ c cfg',
    NewDefaultClient (Some 1%positive) heap0 = Some (c, <[1%positive := cfg']> heap0) ∧
    config c = Some 1%positive ∧
    RolesCacheExpirationTime cfg' = 60 * Second ∧
    JWKSRefreshInterval cfg' = 5 * Second ∧
    RevocationListRefreshInterval cfg' = 60 * Second ∧
    ClientID cfg' = "client-1".
Proof.
  destruct (NewDefaultClient_config_in_place 1%positive heap0 config0)
    as (c & cfg' & Hnew & Hptr & Hr & Hj & Hv & _ & Hid & _).
  - vm_compute. reflexivity.
  - exists c, cfg'. repeat split; assumption.
Defined.

(** Healthy although a bearer-token-refresh error is recorded, because
    the bearer-token refresh is not active. *)
Lemma healthy_witness :
  HealthCheck (withTokenRefreshError (Some (errorString "grant failed"))
                 (client active)) = true.
Proof.
  rewrite (proj2 (HealthCheck_healthy_iff (client active)) _ eq_refl).
  apply (proj1 (HealthCheck_healthy_iff (client active))).
  split; [reflexivity|]. split; [reflexivity|]. intros _. reflexivity.
Defined.

End Examples.

(** * Further properties *)

(** ** Splitting and joining *)

Section SplitJoin.

Lemma Split1_nonempty (s : string) (sep : Ascii.ascii) : Split1 s sep ≠ [].
Proof.
  destruct s as [|c s]; simpl; [done|].
  destruct (Ascii.eqb c sep); [done|]. by destruct (Split1 s sep).
Qed.

Lemma Join1_cons_char (c : Ascii.ascii) (field : string) (fields : list string)
    (sep : Ascii.ascii) :
  Join1 (String c field :: fields) sep = String c (Join1 (field :: fields) sep).
Proof. by destruct fields. Qed.

(** Joining the fields of a string gives the string back. *)
Lemma Join1_Split1 (s : string) (sep : Ascii.ascii) :
  Join1 (Split1 s sep) sep = s.
Proof.
  induction s as [|c s IH]; [done|]. simpl.
  pose proof (Split1_nonempty s sep) as Hne.
  destruct (Ascii.eqb_spec c sep) as [->|Hc].
  - destruct (Split1 s sep) as [|field fields]; [done|].
    change (Join1 (EmptyString :: field :: fields) sep)
      with (String sep (Join1 (field :: fields) sep)).
    by rewrite IH.
  - destruct (Split1 s sep) as [|field fields]; [done|].
    by rewrite Join1_cons_char, IH.
Qed.

(** No field holds the separator. *)
Lemma Split1_no_sep (s : string) (sep : Ascii.ascii) :
  Forall (λ field, hasByte sep field = false) (Split1 s sep).
Proof.
  induction s as [|c s IH]; simpl.
  - by constructor.
  - pose proof (Split1_nonempty s sep) as Hne.
    destruct (Ascii.eqb c sep) eqn:Hc.
    + by constructor.
    + destruct (Split1 s sep) as [|field fields]; [done|].
      inversion IH as [|? ? Hfield Hfields]; subst.
      constructor; [|done]. simpl. by rewrite Hc, Hfield.
Qed.

Lemma Split1_field (field : string) (sep : Ascii.ascii) :
  hasByte sep field = false → Split1 field sep = [field].
Proof.
  induction field as [|c field IH]; simpl; [done|].
  destruct (Ascii.eqb c sep); simpl; [done|].
  intros Hfield. by rewrite IH.
Qed.

Lemma Split1_field_sep (field rest : string) (sep : Ascii.ascii) :
  hasByte sep field = false →
  Split1 (field +:+ String sep rest) sep = field :: Split1 rest sep.
Proof.
  induction field as [|c field IH].
  - intros _. change (EmptyString +:+ String sep rest) with (String sep rest).
    simpl. by rewrite Ascii.eqb_refl.
  - change (String c field +:+ String sep rest)
      with (String c (field +:+ String sep rest)).
    simpl. destruct (Ascii.eqb c sep); simpl; [done|].
    intros Hfield. by rewrite IH.
Qed.

(** Splitting the join of fields without separator gives the fields. *)
Lemma Split1_Join1 (fields : list string) (sep : Ascii.ascii) :
  fields ≠ [] →
  Forall (λ field, hasByte sep field = false) fields →
  Split1 (Join1 fields sep) sep = fields.
Proof.
  induction fields as [|field fields IH]; [done|].
  intros _ Hall. inversion Hall as [|? ? Hfield Hfields]; subst.
  destruct fields as [|field' fields].
  - by apply Split1_field.
  - change (Join1 (field :: field' :: fields) sep)
      with (field +:+ String sep (Join1 (field' :: fields) sep)).
    rewrite Split1_field_sep by done. by rewrite IH.
Qed.

Lemma scopeFound_elem_of (scopes : list string) (reqScope : string) :
  scopeFound scopes reqScope = bool_decide (reqScope ∈ scopes).
Proof.
  induction scopes as [|scope rest IH]; cbn [scopeFound].
  - rewrite bool_decide_eq_false_2; [done|]. apply not_elem_of_nil.
  - destruct (decide (reqScope = scope)) as [->|Hne].
    + rewrite bool_decide_eq_true_2; [done|]. by left.
    + rewrite IH. apply bool_decide_ext. rewrite elem_of_cons. intuition congruence.
Qed.

Lemma roleGranted_elem_of (requiredRoleID : string) (roles : list string) :
  roleGranted requiredRoleID roles = bool_decide (requiredRoleID ∈ roles).
Proof.
  induction roles as [|roleID rest IH]; cbn [roleGranted].
  - rewrite bool_decide_eq_false_2; [done|]. apply not_elem_of_nil.
  - destruct (decide (roleID = requiredRoleID)) as [->|Hne].
    + rewrite bool_decide_eq_true_2; [done|]. by left.
    + rewrite IH. apply bool_decide_ext. rewrite elem_of_cons. intuition congruence.
Qed.

Lemma banFound_elem_of (bans : list JWTBan) (banType : string) :
  banFound bans banType = bool_decide (banType ∈ Ban <$> bans).
Proof.
  induction bans as [|ban rest IH]; cbn [banFound].
  - rewrite bool_decide_eq_false_2; [done|]. apply not_elem_of_nil.
  - rewrite fmap_cons.
    destruct (decide (Ban ban = banType)) as [<-|Hne].
    + rewrite bool_decide_eq_true_2; [done|]. by left.
    + rewrite IH. apply bool_decide_ext. rewrite elem_of_cons. intuition congruence.
Qed.

End SplitJoin.

(** ** Roles, bans, scopes and flags of the claims *)

Section ClaimsQueries.
Context `{Outside}.

(** X1. For claims that are not nil, [ValidateRole] answers whether the
    required role is among the roles of the token, with a nil error,
    without any call and without touching the machine. *)
Theorem ValidateRole_membership
    (requiredRoleID : string) (c : JWTClaims) (σ : Machine) :
  ValidateRole requiredRoleID (Some c) σ
  = (Some (bool_decide (requiredRoleID ∈ Roles c), None), σ, []).
Proof.
  unfold ValidateRole. simpl. rewrite run_bind_pure with (a := c) by done.
  by rewrite roleGranted_elem_of.
Qed.

(** X2. For claims that are not nil, [HasBan] answers whether the ban
    type is the type of one of the bans of the token. *)
Theorem HasBan_membership (c : Claims) (banType : string) (σ : Machine) :
  HasBan (Some c) banType σ
  = (Some (bool_decide (banType ∈ Ban <$> Bans c)), σ, []).
Proof.
  unfold HasBan. simpl. rewrite run_bind_pure with (a := c) by done.
  by rewrite banFound_elem_of.
Qed.

Lemma run_ValidateScope (c : Claims) (reqScope : string) (σ : Machine) :
  ValidateScope (Some c) reqScope σ
  = (Some (if decide (reqScope ∈ Split1 (Scope c) scopeSeparator) then None
           else Some errInsufficientScope), σ, []).
Proof.
  unfold ValidateScope. simpl. rewrite run_bind_pure with (a := c) by done.
  rewrite scopeFound_elem_of.
  destruct (decide (reqScope ∈ Split1 (Scope c) scopeSeparator)).
  - by rewrite bool_decide_eq_true_2.
  - by rewrite bool_decide_eq_false_2.
Qed.

(** X3. [ValidateScope] returns nil or the insufficient-scope error and
    leaves the machine alone.  It returns nil exactly when the scope of
    the token is the join, with single spaces, of fields without space of
    which the required scope is one. *)
Theorem ValidateScope_fields (c : Claims) (reqScope : string) (σ : Machine) :
  ∃ r,
    ValidateScope (Some c) reqScope σ = (Some r, σ, []) ∧
    (r = None ∨ r = Some errInsufficientScope) ∧
    (r = None ↔
       ∃ before after,
         Scope c = Join1 (before ++ reqScope :: after) scopeSeparator ∧
         Forall (λ field, hasByte scopeSeparator field = false)
                (before ++ reqScope :: after)).
Proof.
  rewrite run_ValidateScope.
  destruct (decide (reqScope ∈ Split1 (Scope c) scopeSeparator)) as [Hin|Hnin].
  - exists None. split; [done|]. split; [by left|]. split; [|done].
    intros _. apply list_elem_of_split in Hin as (before & after & Hfields).
    exists before, after. rewrite <- Hfields.
    split; [by rewrite Join1_Split1|apply Split1_no_sep].
  - exists (Some errInsufficientScope). split; [done|]. split; [by right|].
    split; [done|]. intros (before & after & Hscope & Hall).
    exfalso. apply Hnin. rewrite Hscope, Split1_Join1; [|by destruct before|done].
    apply elem_of_app. right. by left.
Qed.

(** X4. A required scope that holds a space is never found, whatever the
    scope of the token: the answer is the insufficient-scope error. *)
Theorem ValidateScope_space_in_required
    (c : Claims) (reqScope : string) (σ : Machine) :
  hasByte scopeSeparator reqScope = true →
  ValidateScope (Some c) reqScope σ = (Some (Some errInsufficientScope), σ, []).
Proof.
  intros Hspace. rewrite run_ValidateScope.
  rewrite decide_False; [done|].
  intros Hin.
  pose proof (Split1_no_sep (Scope c) scopeSeparator) as Hall.
  rewrite Forall_forall in Hall. specialize (Hall _ Hin). congruence.
Qed.

(** X5. A token whose scope is empty has one scope, the empty one: the
    empty required scope is accepted and every other one is refused. *)
Theorem ValidateScope_empty_scope (c : Claims) (reqScope : string) (σ : Machine) :
  Scope c = EmptyString →
  ValidateScope (Some c) reqScope σ
  = (Some (if decide (reqScope = EmptyString) then None
           else Some errInsufficientScope), σ, []).
Proof.
  intros Hscope. rewrite run_ValidateScope, Hscope. simpl.
  destruct (decide (reqScope = EmptyString)) as [->|Hne].
  - rewrite decide_True; [done|]. by left.
  - rewrite decide_False; [done|]. by intros ->%list_elem_of_singleton.
Qed.

Lemma land_pow2 (flags n : Z) :
  0 ≤ n → Z.land flags (2 ^ n) = 2 ^ n ↔ Z.testbit flags n = true.
Proof.
  intros Hn. split.
  - intros Heq.
    assert (Z.testbit (Z.land flags (2 ^ n)) n = Z.testbit (2 ^ n) n) as Hbit
      by (by rewrite Heq).
    rewrite Z.land_spec, Z.pow2_bits_true in Hbit by done.
    by rewrite andb_true_r in Hbit.
  - intros Hbit. apply Z.bits_inj'. intros m Hm.
    rewrite Z.land_spec.
    destruct (decide (n = m)) as [<-|Hne].
    + by rewrite Hbit, Z.pow2_bits_true.
    + rewrite Z.pow2_bits_false by done. apply andb_false_r.
Qed.

Lemma flag_status (flags n : Z) :
  0 ≤ n → bool_decide (Z.land flags (2 ^ n) = 2 ^ n) = Z.testbit flags n.
Proof.
  intros Hn. destruct (Z.testbit flags n) eqn:Hbit.
  - apply bool_decide_eq_true_2. by apply land_pow2.
  - apply bool_decide_eq_false_2. rewrite land_pow2 by done. congruence.
Qed.

Lemma run_status_queries (c : Claims) (σ : Machine) :
  UserEmailVerificationStatus (Some c) σ
    = (Some (bool_decide (Z.land (JusticeFlags c) (2 ^ 0) = 2 ^ 0), None), σ, [])
  ∧ UserPhoneVerificationStatus (Some c) σ
    = (Some (bool_decide (Z.land (JusticeFlags c) (2 ^ 1) = 2 ^ 1), None), σ, [])
  ∧ UserAnonymousStatus (Some c) σ
    = (Some (bool_decide (Z.land (JusticeFlags c) (2 ^ 2) = 2 ^ 2), None), σ, []).
Proof. repeat split. Qed.

(** X6. The three status queries read one bit each of the flags of the
    token: bit 0 is the e-mail verification, bit 1 the phone verification,
    bit 2 the anonymous status; the other bits and the sign of the flags
    play no part, and the error is always nil. *)
Theorem status_queries_read_bits (c : Claims) (σ : Machine) :
  UserEmailVerificationStatus (Some c) σ
    = (Some (Z.testbit (JusticeFlags c) 0, None), σ, [])
  ∧ UserPhoneVerificationStatus (Some c) σ
    = (Some (Z.testbit (JusticeFlags c) 1, None), σ, [])
  ∧ UserAnonymousStatus (Some c) σ
    = (Some (Z.testbit (JusticeFlags c) 2, None), σ, []).
Proof.
  destruct (run_status_queries c σ) as (He & Hp & Ha).
  rewrite He, Hp, Ha, !flag_status by lia. done.
Qed.

(** X7. Flags that are put together from the three statuses, whatever
    the higher bits are, give the three statuses back. *)
Theorem status_queries_decode
    (c : Claims) (email phone anonymous : bool) (higher : Z) (σ : Machine) :
  JusticeFlags c
    = Z.b2z email + 2 * Z.b2z phone + 4 * Z.b2z anonymous + 8 * higher →
  UserEmailVerificationStatus (Some c) σ = (Some (email, None), σ, [])
  ∧ UserPhoneVerificationStatus (Some c) σ = (Some (phone, None), σ, [])
  ∧ UserAnonymousStatus (Some c) σ = (Some (anonymous, None), σ, []).
Proof.
  intros Hflags.
  assert (JusticeFlags c
          = 2 * (2 * (2 * higher + Z.b2z anonymous) + Z.b2z phone) + Z.b2z email)
    as Hbits by lia.
  assert (Z.testbit (JusticeFlags c) 0 = email) as H0.
  { rewrite Hbits. apply Z.testbit_0_r. }
  assert (Z.testbit (JusticeFlags c) 1 = phone) as H1.
  { rewrite Hbits.
    etrans; [exact (Z.testbit_succ_r _ email 0 (Z.le_refl 0))|].
    apply Z.testbit_0_r. }
  assert (Z.testbit (JusticeFlags c) 2 = anonymous) as H2.
  { rewrite Hbits.
    etrans; [exact (Z.testbit_succ_r _ email 1 Z.le_0_1)|].
    etrans; [exact (Z.testbit_succ_r _ phone 0 (Z.le_refl 0))|].
    apply Z.testbit_0_r. }
  destruct (run_status_queries c σ) as (He & Hp & Ha).
  rewrite He, Hp, Ha, !flag_status by lia.
  by rewrite H0, H1, H2.
Qed.

End ClaimsQueries.

(** ** Construction and activation *)

Section ConstructionFacts.
Context `{Collaborators}.

(** X8. After [NewDefaultClient] the three durations of the caller's
    [Config] are positive, the role cache of the new client keeps its
    entries for the roles cache expiration time of that [Config], and the
    base URI cache keeps its entries for one minute. *)
Theorem NewDefaultClient_positive_durations
    (cfgPtr : option positive) (heap heap' : gmap positive Config)
    (c : DefaultClient) :
  NewDefaultClient cfgPtr heap = Some (c, heap') →
  ∃ p cfg',
    config c = Some p ∧ heap' !! p = Some cfg' ∧
    0 < RolesCacheExpirationTime cfg' ∧
    0 < JWKSRefreshInterval cfg' ∧
    0 < RevocationListRefreshInterval cfg' ∧
    cache.defaultExpiration (rolePermissionCache c) = RolesCacheExpirationTime cfg' ∧
    cache.defaultExpiration (baseURICache c) = Minute.
Proof.
  unfold NewDefaultClient. intros Hnew.
  destruct cfgPtr as [p|]; simpl in Hnew; [|done].
  destruct (heap !! p) as [cfg|]; simpl in Hnew; [|done].
  injection Hnew as <- <-.
  eexists p, _. split; [done|]. split; [apply lookup_insert_eq|].
  destruct cfg as [bu ci cs r j v]. unfold cache.New. simpl.
  unfold defaultRoleCacheTime, defaultJWKSRefreshInterval,
    defaultRevocationListRefreshInterval, baseURICacheExpiration, Minute, Second.
  repeat (case_decide; simpl in *); repeat split; lia.
Qed.

Lemma NewDefaultClient_inv
    (cfgPtr : option positive) (heap heap' : gmap positive Config)
    (c : DefaultClient) :
  NewDefaultClient cfgPtr heap = Some (c, heap') →
  ∃ p cfg',
    cfgPtr = Some p ∧ heap' = <[p := cfg']> heap ∧ c = clientOf p cfg' ∧
    0 < RolesCacheExpirationTime cfg' ∧
    0 < JWKSRefreshInterval cfg' ∧
    0 < RevocationListRefreshInterval cfg'.
Proof.
  unfold NewDefaultClient. intros Hnew.
  destruct cfgPtr as [p|]; simpl in Hnew; [|done].
  destruct (heap !! p) as [cfg|]; simpl in Hnew; [|done].
  injection Hnew as <- <-.
  eexists p, _. split; [done|]. split; [done|]. split; [done|].
  destruct cfg as [bu ci cs r j v]. simpl.
  unfold defaultRoleCacheTime, defaultJWKSRefreshInterval,
    defaultRevocationListRefreshInterval, Second.
  repeat (case_decide; simpl in *); repeat split; lia.
Qed.

Lemma NewDefaultClient_positive
    (p : positive) (heap : gmap positive Config) (cfg : Config) :
  heap !! p = Some cfg →
  0 < RolesCacheExpirationTime cfg →
  0 < JWKSRefreshInterval cfg →
  0 < RevocationListRefreshInterval cfg →
  NewDefaultClient (Some p) heap = Some (clientOf p cfg, <[p := cfg]> heap).
Proof.
  intros Hp Hr Hj Hv. unfold NewDefaultClient. simpl. rewrite Hp. simpl.
  rewrite (decide_False (P := RolesCacheExpirationTime cfg ≤ 0)) by lia.
  rewrite (decide_False (P := JWKSRefreshInterval cfg ≤ 0)) by lia.
  rewrite (decide_False (P := RevocationListRefreshInterval cfg ≤ 0)) by lia.
  reflexivity.
Qed.

(** X9. [NewDefaultClient] is idempotent on the [Config]: called again
    with the same pointer on the heap it left, it leaves that heap as it
    is and builds the same client. *)
Theorem NewDefaultClient_again
    (cfgPtr : option positive) (heap heap' : gmap positive Config)
    (c : DefaultClient) :
  NewDefaultClient cfgPtr heap = Some (c, heap') →
  NewDefaultClient cfgPtr heap' = Some (c, heap').
Proof.
  intros Hnew.
  destruct (NewDefaultClient_inv _ _ _ _ Hnew)
    as (p & cfg' & -> & -> & -> & Hr & Hj & Hv).
  rewrite (NewDefaultClient_positive p _ cfg') by (done || apply lookup_insert_eq).
  by rewrite insert_insert_eq.
Qed.

(** X10. A client as [NewDefaultClient] returns it is healthy, holds no
    access token, and refuses every token with the not-activated error,
    without verifying anything, in whatever world it runs. *)
Theorem NewDefaultClient_fresh
    (cfgPtr : option positive) (heap heap' : gmap positive Config)
    (c : DefaultClient) :
  NewDefaultClient cfgPtr heap = Some (c, heap') →
  HealthCheck c = true ∧
  (∀ w, ClientToken {| client := c; configs := heap'; world := w |}
        = (Some EmptyString, {| client := c; configs := heap'; world := w |}, [])) ∧
  (∀ w accessToken,
     ValidateAndParseClaims accessToken {| client := c; configs := heap'; world := w |}
     = (Some (None, Some errLocalValidationNotActive),
        {| client := c; configs := heap'; world := w |}, [])).
Proof.
  intros Hnew.
  assert (localValidationActive c = false) as Hoff
    by (by eapply NewDefaultClient_inactive).
  unfold NewDefaultClient in Hnew.
  destruct cfgPtr as [p|]; simpl in Hnew; [|done].
  destruct (heap !! p) as [cfg|]; simpl in Hnew; [|done].
  injection Hnew as <- <-.
  split; [done|]. split; [done|].
  intros w accessToken. by apply ValidateAndParseClaims_inactive.
Qed.

Lemma run_StartLocalValidation (σ : Machine) :
  StartLocalValidation σ =
  match getJWKS σ with
  | (Some e, σ1) => (Some (Some (Errorf "unable to get JWKS: " e)), σ1, [EvGetJWKS])
  | (None, σ1) =>
      match getRevocationList σ1 with
      | (Some e, σ2) =>
          (Some (Some (Errorf "unable to get revocation list: " e)), σ2,
           [EvGetJWKS; EvGetRevocationList])
      | (None, σ2) =>
          (Some None,
           {| client :=
                {| keys := keys (client σ2);
                   clientAccessToken := clientAccessToken (client σ2);
                   config := config (client σ2);
                   rolePermissionCache := rolePermissionCache (client σ2);
                   revocationFilter := revocationFilter (client σ2);
                   revokedUsers := revokedUsers (client σ2);
                   tokenRefreshActive := tokenRefreshActive (client σ2);
                   localValidationActive := true;
                   jwksRefreshError := jwksRefreshError (client σ2);
                   revocationListRefreshError := revocationListRefreshError (client σ2);
                   tokenRefreshError := tokenRefreshError (client σ2);
                   baseURICache := baseURICache (client σ2);
                   httpClient := httpClient (client σ2) |};
              configs := configs σ2;
              world := world σ2 |},
           [EvGetJWKS; EvGetRevocationList;
            EvGo "refreshJWKS"; EvGo "refreshRevocationList"])
      end
  end.
Proof.
  unfold StartLocalValidation. rewrite run_bind. unfold call.
  destruct (getJWKS σ) as [[e1|] σ1]; simpl; [done|].
  rewrite run_bind. unfold call.
  destruct (getRevocationList σ1) as [[e2|] σ2]; simpl; done.
Qed.

(** X11. A [StartLocalValidation] that returns ends in one of two ways.
    It returns nil after both fetches, in this order, and the start of the
    two refreshing goroutines; then local validation is active and the
    keys, the revoked subjects, the heap and the world are as the second
    fetch left them.  Or it returns an error, which is a new error whose
    text begins with what could not be fetched (the role-not-found
    sentinel is never returned); then no goroutine was started, and when
    the keys could not be fetched the revocation list was not asked
    for. *)
Theorem StartLocalValidation_outcome
    (σ σ' : Machine) (r : option error) (t : list Event) :
  StartLocalValidation σ = (Some r, σ', t) →
  (r = None ∧
   t = [EvGetJWKS; EvGetRevocationList;
        EvGo "refreshJWKS"; EvGo "refreshRevocationList"] ∧
   localValidationActive (client σ') = true ∧
   ∃ σ1 σ2,
     getJWKS σ = (None, σ1) ∧ getRevocationList σ1 = (None, σ2) ∧
     keys (client σ') = keys (client σ2) ∧
     revokedUsers (client σ') = revokedUsers (client σ2) ∧
     configs σ' = configs σ2 ∧ world σ' = world σ2)
  ∨ (∃ e, r = Some (errorString ("unable to get JWKS: " +:+ Error e)) ∧
          getJWKS σ = (Some e, σ') ∧ t = [EvGetJWKS])
  ∨ (∃ e σ1, r = Some (errorString
                         ("unable to get revocation list: " +:+ Error e)) ∧
             getJWKS σ = (None, σ1) ∧ getRevocationList σ1 = (Some e, σ') ∧
             t = [EvGetJWKS; EvGetRevocationList]).
Proof.
  rewrite run_StartLocalValidation.
  destruct (getJWKS σ) as [[e1|] σ1] eqn:Hj.
  - intros [= <- <- <-]. right. left. by exists e1.
  - destruct (getRevocationList σ1) as [[e2|] σ2] eqn:Hr.
    + intros [= <- <- <-]. right. right. by exists e2, σ1.
    + intros [= <- <- <-]. left. repeat split. by exists σ1, σ2.
Qed.

(** X12. After a [StartLocalValidation] that returned nil,
    [ValidateAndParseClaims] does verify the token: it calls the JWT
    verification first, on the machine that the start left, and its answer
    is not the not-activated error. *)
Theorem StartLocalValidation_then_validate
    (σ σ' : Machine) (t : list Event) (accessToken : string) :
  StartLocalValidation σ = (Some None, σ', t) →
  ∃ r σ'' t',
    ValidateAndParseClaims accessToken σ' = (r, σ'', EvValidateJWT accessToken :: t') ∧
    r ≠ Some (None, Some errLocalValidationNotActive).
Proof.
  intros Hstart. apply StartLocalValidation_ok in Hstart as Hon.
  unfold ValidateAndParseClaims.
  rewrite (run_bind_pure _ _ σ' true) by (by rewrite run_gets, Hon).
  simpl. rewrite run_bind. unfold call.
  destruct (validateJWT accessToken σ') as [[claims [e|]] σ1]; simpl.
  - eexists _, _, _. split; [done|]. intros [= Heq].
  - destruct claims as [c|]; simpl; [|by eexists _, _, _].
    rewrite (run_bind_pure _ _ σ1 c) by done.
    rewrite run_bind. unfold userRevoked at 1.
    rewrite (run_bind_pure _ _ σ1 (revokedUsers (client σ1))) by done.
    rewrite run_ret.
    destruct (match revokedUsers (client σ1) !! Subject c with
              | Some revokedAt => bool_decide (IssuedAt c ≤ revokedAt)
              | None => false
              end); simpl.
    + eexists _, _, _. split; [done|]. intros [= Heq].
    + rewrite run_bind. unfold call.
      destruct (tokenRevoked accessToken σ1) as [[] σ2]; simpl;
        (eexists _, _, _; split; [done|]; intros [= Heq]).
Qed.

End ConstructionFacts.

(** ** ValidateAndParseClaims: the ways it ends *)

Section ValidationFacts.
Context `{Collaborators}.

Lemma userRevoked_pure (userID : string) (issuedAt : Z) (σ : Machine) :
  ∃ b, userRevoked userID issuedAt σ = (Some b, σ, []).
Proof.
  unfold userRevoked.
  rewrite (run_bind_pure _ _ σ (revokedUsers (client σ))) by done.
  by eexists.
Qed.

Lemma run_ValidateAndParseClaims (accessToken : string) (σ : Machine) :
  localValidationActive (client σ) = true →
  ValidateAndParseClaims accessToken σ =
  let '((claims, err), σ1) := validateJWT accessToken σ in
  match err with
  | Some e =>
      (Some (None, Some (Errorf "unable to verify JWT : " e)), σ1,
       [EvValidateJWT accessToken])
  | None =>
      match claims with
      | None => (None, σ1, [EvValidateJWT accessToken])
      | Some c =>
          if decide ((userRevoked (Subject c) (IssuedAt c) σ1).1.1 = Some true)
          then (Some (None, Some errUserRevoked), σ1, [EvValidateJWT accessToken])
          else
            let '(revoked, σ2) := tokenRevoked accessToken σ1 in
            if revoked
            then (Some (None, Some errTokenRevoked), σ2,
                  [EvValidateJWT accessToken; EvTokenRevoked accessToken])
            else (Some (Some c, None), σ2,
                  [EvValidateJWT accessToken; EvTokenRevoked accessToken])
      end
  end.
Proof.
  intros Hon. unfold ValidateAndParseClaims.
  rewrite (run_bind_pure _ _ σ true) by (by rewrite run_gets, Hon).
  lazy beta iota delta [negb]. rewrite run_bind. unfold call at 1.
  destruct (validateJWT accessToken σ) as [[claims [e|]] σ1]; lazy beta iota;
    [done|].
  destruct claims as [c|]; [|done].
  rewrite (run_bind_pure _ _ σ1 c) by done.
  destruct (userRevoked_pure (Subject c) (IssuedAt c) σ1) as [b Hb].
  rewrite (run_bind_pure _ _ σ1 b) by done. rewrite Hb. cbn [fst].
  destruct b; [by rewrite decide_True|rewrite decide_False by done].
  rewrite run_bind. unfold call.
  by destruct (tokenRevoked accessToken σ1) as [[] σ2].
Qed.

(** Case analysis on an active run: the JWT verification, then the
    subject-level check, then the token-level check. *)
Ltac validation_cases accessToken σ claims e σ1 c1 b Hb Hjwt :=
  destruct (validateJWT accessToken σ) as [[claims [e|]] σ1] eqn:Hjwt;
  [|destruct claims as [c1|];
    [destruct (userRevoked_pure (Subject c1) (IssuedAt c1) σ1) as [b Hb];
     rewrite Hb; cbn [fst];
     destruct b; [rewrite decide_True by done|rewrite decide_False by done]|]].

(** X13. [ValidateAndParseClaims] returns claims exactly when local
    validation is active, the JWT verification returned these claims
    without error, the subject-level check did not find the subject
    revoked and the token-level check did not find the token revoked;
    then the error is nil, both external checks were made, in this order,
    and the machine is the one the token-level check left. *)
Theorem ValidateAndParseClaims_accepts
    (accessToken : string) (σ σ' : Machine) (c : JWTClaims)
    (err : option error) (t : list Event) :
  ValidateAndParseClaims accessToken σ = (Some (Some c, err), σ', t) ↔
  err = None ∧
  t = [EvValidateJWT accessToken; EvTokenRevoked accessToken] ∧
  localValidationActive (client σ) = true ∧
  ∃ σ1,
    validateJWT accessToken σ = ((Some c, None), σ1) ∧
    userRevoked (Subject c) (IssuedAt c) σ1 = (Some false, σ1, []) ∧
    tokenRevoked accessToken σ1 = (false, σ').
Proof.
  split.
  - destruct (localValidationActive (client σ)) eqn:Hon.
    + rewrite run_ValidateAndParseClaims by done.
      validation_cases accessToken σ claims e σ1 c1 b Hb Hjwt;
        try (by intros [=]).
      destruct (tokenRevoked accessToken σ1) as [[] σ2] eqn:Htok; [by intros [=]|].
      intros [= -> <- <- <-]. repeat split. by exists σ1.
    + rewrite ValidateAndParseClaims_inactive by done. by intros [=].
  - intros (-> & -> & Hon & σ1 & Hjwt & Huser & Htok).
    rewrite run_ValidateAndParseClaims by done.
    rewrite Hjwt, Huser, Htok. cbn [fst]. by rewrite decide_False by done.
Qed.

(** X14. When [ValidateAndParseClaims] returns nil claims, it returns one
    of four errors, and the trace tells how far it went: the not-activated
    error before any call; a new error that wraps the text of the JWT
    verification error after that call alone; the user-revoked error after
    the JWT verification, the token-level check not being made; the
    token-revoked error after both calls.  Nil claims never come with a
    nil error. *)
Theorem ValidateAndParseClaims_rejects
    (accessToken : string) (σ σ' : Machine) (err : option error) (t : list Event) :
  ValidateAndParseClaims accessToken σ = (Some (None, err), σ', t) →
  (err = Some errLocalValidationNotActive ∧ t = [] ∧ σ' = σ ∧
   localValidationActive (client σ) = false)
  ∨ (∃ e claims,
       err = Some (errorString ("unable to verify JWT : " +:+ Error e)) ∧
       validateJWT accessToken σ = ((claims, Some e), σ') ∧
       t = [EvValidateJWT accessToken])
  ∨ (err = Some errUserRevoked ∧ t = [EvValidateJWT accessToken])
  ∨ (err = Some errTokenRevoked ∧
     t = [EvValidateJWT accessToken; EvTokenRevoked accessToken]).
Proof.
  destruct (localValidationActive (client σ)) eqn:Hon.
  - rewrite run_ValidateAndParseClaims by done.
    validation_cases accessToken σ claims e σ1 c1 b Hb Hjwt.
    + intros [= <- <- <-]. right. left. by exists e, claims.
    + intros [= <- <- <-]. right. right. by left.
    + destruct (tokenRevoked accessToken σ1) as [[] σ2] eqn:Htok; [|by intros [=]].
      intros [= <- <- <-]. right. right. by right.
    + by intros [=].
  - rewrite ValidateAndParseClaims_inactive by done.
    intros [= <- <- <-]. by left.
Qed.

(** X15. [ValidateAndParseClaims] panics in one case only: local
    validation is active and the JWT verification returns nil claims
    together with a nil error. *)
Theorem ValidateAndParseClaims_panics (accessToken : string) (σ : Machine) :
  (ValidateAndParseClaims accessToken σ).1.1 = None ↔
  localValidationActive (client σ) = true ∧
  ∃ σ1, validateJWT accessToken σ = ((None, None), σ1).
Proof.
  destruct (localValidationActive (client σ)) eqn:Hon.
  - rewrite run_ValidateAndParseClaims by done.
    validation_cases accessToken σ claims e σ1 c1 b Hb Hjwt.
    + cbn [fst]. split; [done|]. by intros (_ & σ2 & [=]).
    + cbn [fst]. split; [done|]. by intros (_ & σ2 & [=]).
    + destruct (tokenRevoked accessToken σ1) as [[] σ2]; cbn [fst];
        (split; [done|]; by intros (_ & σ3 & [=])).
    + cbn [fst]. split; [|done]. intros _. split; [done|]. by exists σ1.
  - rewrite ValidateAndParseClaims_inactive by done. cbn [fst].
    split; [done|]. by intros [[=] _].
Qed.

End ValidationFacts.

(** ** ValidatePermission: the roles that are fetched *)

Section RoleFacts.
Context `{Collaborators}.

Lemma validateRoles_trace c req roles σ r σ' t :
  validateRoles c req roles σ = (r, σ', t) →
  ∃ k, t = EvGetRolePermission <$> take k roles.
Proof.
  revert σ t. induction roles as [|roleID rest IH]; intros σ t.
  - simpl. intros [= <- <- <-]. by exists 0%nat.
  - rewrite validateRoles_cons.
    destruct (getRolePermission roleID σ) as [[granted [e|]] σ1].
    + destruct (decide (e = errRoleNotFound)).
      * destruct (validateRoles c req rest σ1) as [[r1 σ2] t1] eqn:Hrest.
        intros [= <- <- <-].
        destruct (IH _ _ Hrest) as [k ->]. by exists (S k).
      * intros [= <- <- <-]. by exists 1%nat.
    + destruct (permissionAllowed _ _).
      * intros [= <- <- <-]. by exists 1%nat.
      * destruct (validateRoles c req rest σ1) as [[r1 σ2] t1] eqn:Hrest.
        intros [= <- <- <-].
        destruct (IH _ _ Hrest) as [k ->]. by exists (S k).
Qed.

(** X16. In [ValidatePermission] the role store is asked for the roles of
    the token in their order, each once, none left out, up to the role at
    which the resolution ends: the trace is the list of fetches of the
    first [k] roles, for some [k], and nothing else. *)
Theorem ValidatePermission_fetches_prefix
    (c : JWTClaims) (req : Permission) (order : list (string * string))
    (σ σ' : Machine) (r : option (bool * option error)) (t : list Event) :
  ValidatePermission (Some c) req order σ = (r, σ', t) →
  ∃ k, t = EvGetRolePermission <$> take k (Roles c).
Proof.
  unfold ValidatePermission.
  destruct (permissionAllowed _ _).
  - intros [= <- <- <-]. by exists 0%nat.
  - apply validateRoles_trace.
Qed.

Lemma validateRoles_all_unknown c req roles σ :
  (∀ roleID σ0, roleID ∈ roles →
     (getRolePermission roleID σ0).1.2 = Some errRoleNotFound) →
  ∃ σ', validateRoles c req roles σ
        = (Some (false, None), σ', EvGetRolePermission <$> roles).
Proof.
  revert σ. induction roles as [|roleID rest IH]; intros σ Hunknown.
  - by exists σ.
  - rewrite validateRoles_cons.
    pose proof (Hunknown roleID σ ltac:(by left)) as Hfetch.
    destruct (getRolePermission roleID σ) as [[granted err] σ1].
    simpl in Hfetch. subst err. rewrite decide_True by done.
    destruct (IH σ1) as [σ' Hrest].
    { intros r σ0 Hin. apply Hunknown. by right. }
    rewrite Hrest. by exists σ'.
Qed.

(** X17. When the direct permissions do not allow and the role store
    knows none of the roles of the token, [ValidatePermission] returns
    [(false, nil)] after asking for every role once, in order: unknown
    roles are no error. *)
Theorem ValidatePermission_all_roles_unknown
    (c : JWTClaims) (req : Permission) (order : list (string * string))
    (σ : Machine) :
  permissionAllowed (Permissions c) (replacePlaceholders order req) = false →
  (∀ roleID σ0, roleID ∈ Roles c →
     (getRolePermission roleID σ0).1.2 = Some errRoleNotFound) →
  ∃ σ', ValidatePermission (Some c) req order σ
        = (Some (false, None), σ', EvGetRolePermission <$> Roles c).
Proof.
  intros Hdirect Hunknown. unfold ValidatePermission. rewrite Hdirect.
  by apply validateRoles_all_unknown.
Qed.

(** X18. In the iteration over the roles, let a role be reached, the
    roles before it having given neither a match nor an error, and let its
    fetch succeed.  If the permissions of the role, after the values of
    the token were applied to them, allow the substituted required
    permission, the answer is [(true, nil)] and no later role is fetched;
    if they do not, the iteration goes on with the roles after it. *)
Theorem ValidatePermission_role_fetched
    (c : JWTClaims) (req : Permission) (order : list (string * string))
    (pre post : list string) (roleID : string)
    (σ σ1 σ2 : Machine) (t1 : list Event) (granted : list Permission) :
  permissionAllowed (Permissions c) (replacePlaceholders order req) = false →
  Roles c = pre ++ roleID :: post →
  validateRoles c (replacePlaceholders order req) pre σ = (Some (false, None), σ1, t1) →
  getRolePermission roleID σ1 = ((granted, None), σ2) →
  ValidatePermission (Some c) req order σ =
  (if permissionAllowed (applyUserPermissionResourceValues granted c)
        (replacePlaceholders order req)
   then (Some (true, None), σ2, t1 ++ [EvGetRolePermission roleID])
   else let '(r, σ3, t3) :=
          validateRoles c (replacePlaceholders order req) post σ2 in
        (r, σ3, t1 ++ EvGetRolePermission roleID :: t3)).
Proof.
  intros Hdirect Hroles Hpre Hfetch.
  unfold ValidatePermission. rewrite Hdirect.
  rewrite Hroles, validateRoles_app, Hpre, validateRoles_cons, Hfetch.
  destruct (permissionAllowed (applyUserPermissionResourceValues granted c) _);
    [done|].
  by destruct (validateRoles _ _ post σ2) as [[r σ3] t3].
Qed.

Lemma Replace1_absent (s old new : string) :
  Contains s old = false → Replace1 s old new = s.
Proof.
  intros Habsent.
  destruct (Replace1_cases s old new) as [[Heq _]|(pre & post & Hs & _ & _)];
    [done|].
  assert (Contains s old = true) as Hin; [|congruence].
  apply Contains_occurs. exists (String.length pre). by exists pre, post.
Qed.

(** X19. Bindings whose placeholders do not occur in the resource of the
    required permission change nothing: [ValidatePermission] behaves as it
    does without bindings. *)
Theorem ValidatePermission_unused_bindings
    (claims : option JWTClaims) (req : Permission)
    (order : list (string * string)) (σ : Machine) :
  (∀ placeholder value, (placeholder, value) ∈ order →
     Contains (Resource req) placeholder = false) →
  ValidatePermission claims req order σ = ValidatePermission claims req [] σ.
Proof.
  intros Hunused.
  assert (replacePlaceholders order req = req) as Hsame.
  { induction order as [|[k v] rest IH]; simpl; [done|].
    rewrite Replace1_absent by (eapply Hunused; by left).
    destruct req as [resource action]. simpl in *.
    apply IH. intros k' v' Hin. eapply Hunused. by right. }
  unfold ValidatePermission. destruct claims as [c|]; [|done].
  by rewrite Hsame.
Qed.

End RoleFacts.

(** ** The client information and the audience *)

Section ClientInformationFacts.
Context `{Collaborators}.

Lemma run_getClientInformation (url : string) (σ : Machine) :
  getClientInformation url σ =
  let '(req0, err) := httpNewRequest MethodGet url in
  match err with
  | Some e =>
      (Some (Some (Errorf "unable to create new http request: " e)), σ, [])
  | None =>
      match req0 with
      | None => (None, σ, [])
      | Some req0 =>
          let req :=
            HeaderAdd "Authorization" ("Bearer " +:+ clientAccessToken (client σ))
              (HeaderAdd "Content-Type" "application/json" req0) in
          let '((resp, err), w) := Do (httpClient (client σ)) req (world σ) in
          match err with
          | Some e =>
              (Some (Some (Errorf "unable to do http request: " e)),
               atWorld w σ, [EvHTTPDo req])
          | None =>
              match resp with
              | None => (None, atWorld w σ, [EvHTTPDo req])
              | Some resp =>
                  let '(body, err) := Body resp in
                  match err with
                  | Some e =>
                      (Some (Some (Errorf "unable to read body response: " e)),
                       atWorld w σ, [EvHTTPDo req])
                  | None =>
                      if decide (StatusCode resp ≠ StatusOK) then
                        (Some (Some (errorString
                           ("unable to get client information : error code : "
                            +:+ pretty (StatusCode resp)
                            +:+ ", error message : " +:+ body))),
                         atWorld w σ, [EvHTTPDo req])
                      else
                        let '(u, err) := jsonUnmarshalClientInformation body in
                        match err with
                        | Some e =>
                            (Some (Some (Errorf "unable to unmarshal body: " e)),
                             atWorld w σ, [EvHTTPDo req])
                        | None =>
                            (Some None, (cacheSetBaseURI u (atWorld w σ)).1.2,
                             [EvHTTPDo req])
                        end
                  end
              end
          end
      end
  end.
Proof.
  unfold getClientInformation.
  destruct (httpNewRequest MethodGet url) as [req0 [e|]]; [done|].
  destruct req0 as [req0|]; [|done].
  run. unfold httpDo.
  destruct (Do _ _ _) as [[resp [e|]] w]; simpl; [done|].
  destruct resp as [resp|]; simpl; [|done].
  destruct (Body resp) as [body [e|]]; simpl; [done|].
  destruct (decide (StatusCode resp ≠ StatusOK)); simpl; [done|].
  destruct (jsonUnmarshalClientInformation body) as [u [e|]]; simpl; done.
Qed.


(** X21. When [getClientInformation] returns an error, the client, its
    base URI cache with it, and the heap are as before; the error is a new
    error with its own text, never the role-not-found sentinel, even when
    that is what the transport returned. *)
Theorem getClientInformation_error
    (url : string) (σ σ' : Machine) (e : error) (t : list Event) :
  getClientInformation url σ = (Some (Some e), σ', t) →
  client σ' = client σ ∧ configs σ' = configs σ ∧
  cache.items (baseURICache (client σ')) = cache.items (baseURICache (client σ)) ∧
  ∃ text, e = errorString text.
Proof.
  rewrite run_getClientInformation.
  destruct (httpNewRequest MethodGet url) as [req0 [e0|]].
  { intros [= <- <- <-]. repeat split. by eexists. }
  destruct req0 as [req0|]; [|by intros [=]].
  lazy zeta.
  destruct (Do _ _ _) as [[resp [e1|]] w].
  { intros [= <- <- <-]. repeat split. by eexists. }
  destruct resp as [resp|]; [|by intros [=]].
  destruct (Body resp) as [body [e2|]].
  { intros [= <- <- <-]. repeat split. by eexists. }
  destruct (decide (StatusCode resp ≠ StatusOK)).
  { intros [= <- <- <-]. repeat split. by eexists. }
  destruct (jsonUnmarshalClientInformation body) as [u [e3|]]; [|by intros [=]].
  intros [= <- <- <-]. repeat split. by eexists.
Qed.

(** X22. A response whose status is not 200 is an error, whatever its
    body holds: the error quotes the status code in decimal and the body,
    and the base URI cache is not written. *)
Theorem getClientInformation_status
    (url : string) (σ : Machine) (req0 : Request) (resp : Response)
    (body : string) (w : World) :
  httpNewRequest MethodGet url = (Some req0, None) →
  Do (httpClient (client σ))
     (HeaderAdd "Authorization" ("Bearer " +:+ clientAccessToken (client σ))
        (HeaderAdd "Content-Type" "application/json" req0))
     (world σ) = ((Some resp, None), w) →
  Body resp = (body, None) →
  StatusCode resp ≠ 200 →
  ∃ t,
    getClientInformation url σ =
    (Some (Some (errorString
       ("unable to get client information : error code : "
        +:+ pretty (StatusCode resp) +:+ ", error message : " +:+ body))),
     atWorld w σ, t) ∧
    baseURICache (client (atWorld w σ)) = baseURICache (client σ).
Proof.
  intros Hreq HDo Hbody Hstatus.
  rewrite run_getClientInformation, Hreq. lazy zeta beta iota.
  rewrite HDo, Hbody. rewrite decide_True by done. by eexists.
Qed.

Lemma run_ValidateAudience_hit (c : JWTClaims) (audience : list string)
    (u : string) (σ : Machine) :
  Audience c = Some audience →
  cachedBaseURI σ = Some u →
  ValidateAudience (Some c) σ =
  (Some (if decide (u ∈ audience) then None else Some errAudienceMismatch), σ, []).
Proof.
  intros Haud Hhit. unfold ValidateAudience. rewrite Haud.
  rewrite (run_bind_pure _ _ σ (Some u)) by (by rewrite run_cacheGetBaseURI, Hhit).
  apply run_checkAudience.
Qed.

Lemma run_getConfig (σ : Machine) :
  getConfig σ = (None, σ, []) ∨ ∃ cfg, getConfig σ = (Some cfg, σ, []).
Proof.
  unfold getConfig. destruct (config (client σ)) as [p|]; [|by left].
  destruct (configs σ !! p) as [cfg|]; [right; by eexists|by left].
Qed.

Lemma run_ValidateAudience_miss (c : JWTClaims) (audience : list string)
    (σ : Machine) :
  Audience c = Some audience →
  cachedBaseURI σ = None →
  ValidateAudience (Some c) σ =
  match (getConfig σ).1.1 with
  | None => (None, σ, [])
  | Some cfg =>
      let '(r, σ', t) :=
        getClientInformation
          (BaseURL cfg +:+ clientInformationPath (Namespace c) (ClientID cfg)) σ in
      match r with
      | None => (None, σ', t)
      | Some (Some e) =>
          (Some (Some e), σ',
           t ++ [EvPrintf ("[IAM-Go-SDK] get client detail returns error: "
                           +:+ Error e +:+ newline)])
      | Some None =>
          let '(r', σ'', t') := checkAudience audience (cachedBaseURI σ') σ' in
          (r', σ'', t ++ t')
      end
  end.
Proof.
  intros Haud Hmiss. unfold ValidateAudience. rewrite Haud.
  rewrite (run_bind_pure _ _ σ None) by (by rewrite run_cacheGetBaseURI, Hmiss).
  destruct (run_getConfig σ) as [Hcfg|[cfg Hcfg]].
  - rewrite run_bind, Hcfg. done.
  - rewrite (run_bind_pure _ _ σ cfg) by done.
    rewrite (run_bind_pure _ _ σ cfg) by done.
    rewrite Hcfg, run_bind. cbn [fst].
    destruct (getClientInformation _ σ) as [[[[e|]|] σ'] t]; [by run| |done].
    rewrite run_bind, run_cacheGetBaseURI. lazy beta iota zeta.
    by destruct (checkAudience audience (cachedBaseURI σ') σ') as [[r σ''] t'].
Qed.

Lemma checkAudience_nil (audience : list string) (baseURI : option string)
    (σ σ' : Machine) (t : list Event) :
  checkAudience audience baseURI σ = (Some None, σ', t) →
  σ' = σ ∧ t = [] ∧ ∃ u, baseURI = Some u ∧ u ∈ audience.
Proof.
  destruct baseURI as [u|].
  - rewrite run_checkAudience.
    destruct (decide (u ∈ audience)); [|by intros [=]].
    intros [= <- <-]. repeat split. by exists u.
  - unfold checkAudience.
    assert (audienceAllowed audience None = false) as ->.
    { induction audience as [|a rest IH]; simpl; done. }
    by intros [=].
Qed.

(** What a run that returned nil from a cache miss went through. *)
Lemma ValidateAudience_nil_cached (c : JWTClaims) (audience : list string)
    (σ σ' : Machine) (t : list Event) :
  Audience c = Some audience →
  ValidateAudience (Some c) σ = (Some None, σ', t) →
  ∃ u, cachedBaseURI σ' = Some u ∧ u ∈ audience.
Proof.
  intros Haud Hrun.
  destruct (cachedBaseURI σ) as [u|] eqn:Hcache.
  - rewrite (run_ValidateAudience_hit c audience u) in Hrun by done.
    destruct (decide (u ∈ audience)); [|by injection Hrun].
    injection Hrun as <- <-. by exists u.
  - rewrite (run_ValidateAudience_miss c audience) in Hrun by done.
    destruct (run_getConfig σ) as [Hcfg|[cfg Hcfg]]; rewrite Hcfg in Hrun;
      cbn [fst] in Hrun; [by injection Hrun|].
    destruct (getClientInformation _ σ) as [[[[e|]|] σ1] t1];
      [by injection Hrun| |by injection Hrun].
    destruct (checkAudience audience (cachedBaseURI σ1) σ1) as [[r σ2] t2] eqn:Hcheck.
    injection Hrun as -> -> <-.
    apply checkAudience_nil in Hcheck as (-> & _ & u & Hu & Hin).
    by exists u.
Qed.

(** X23. [ValidateAudience] returns nil only for claims that are not nil
    and that either carry no audience, or carry an audience one entry of
    which is the base URI that the cache of the client holds when the call
    ends: nil claims and an audience without entries are never let
    through. *)
Theorem ValidateAudience_nil_sound
    (claims : option JWTClaims) (σ σ' : Machine) (t : list Event) :
  ValidateAudience claims σ = (Some None, σ', t) →
  ∃ c, claims = Some c ∧
       (Audience c = None ∨
        ∃ audience u,
          Audience c = Some audience ∧ cachedBaseURI σ' = Some u ∧ u ∈ audience).
Proof.
  destruct claims as [c|]; [|by intros [=]].
  intros Hrun. exists c. split; [done|].
  destruct (Audience c) as [audience|] eqn:Haud; [|by left].
  right. exists audience.
  destruct (ValidateAudience_nil_cached c audience σ σ' t Haud Hrun)
    as (u & Hu & Hin).
  by exists u.
Qed.

(** X24. An audience validation that returned nil, made again for the
    same claims on the machine it left, returns nil again without any
    request: the base URI is taken from the cache. *)
Theorem ValidateAudience_again
    (c : JWTClaims) (audience : list string) (σ σ' : Machine) (t : list Event) :
  Audience c = Some audience →
  ValidateAudience (Some c) σ = (Some None, σ', t) →
  ValidateAudience (Some c) σ' = (Some None, σ', []).
Proof.
  intros Haud Hrun.
  destruct (ValidateAudience_nil_cached c audience σ σ' t Haud Hrun)
    as (u & Hu & Hin).
  rewrite (run_ValidateAudience_hit c audience u) by done.
  by rewrite decide_True.
Qed.

(** X25. With the base URI cache set up as [NewDefaultClient] does and a
    clock that is past the epoch, a base URI that [getClientInformation]
    fetched stays in the cache for one minute of the clock: up to that
    time, the end included, an
    audience validation is answered against it without a request,
    whatever else happened in the world; after that time the cache no
    longer returns it. *)
Theorem base_URI_cached_one_minute
    (url : string) (σ σ' : Machine) (t : list Event) :
  cache.defaultExpiration (baseURICache (client σ)) = baseURICacheExpiration →
  getClientInformation url σ = (Some None, σ', t) →
  0 ≤ timeNow (world σ') →
  ∃ u,
    cachedBaseURI σ' = Some u ∧
    (∀ w, timeNow w ≤ timeNow (world σ') + 60 * Second →
          ∀ c audience, Audience c = Some audience →
            ValidateAudience (Some c) (atWorld w σ') =
            (Some (if decide (u ∈ audience) then None
                   else Some errAudienceMismatch), atWorld w σ', [])) ∧
    (∀ w, timeNow (world σ') + 60 * Second < timeNow w →
          cachedBaseURI (atWorld w σ') = None).
Proof.
  intros Httl. rewrite run_getClientInformation.
  destruct (httpNewRequest MethodGet url) as [req0 [e0|]]; [by intros [=]|].
  destruct req0 as [req0|]; [|by intros [=]].
  lazy zeta.
  destruct (Do _ _ _) as [[resp [e1|]] w1]; [by intros [=]|].
  destruct resp as [resp|]; [|by intros [=]].
  destruct (Body resp) as [body [e2|]]; [by intros [=]|].
  destruct (decide (StatusCode resp ≠ StatusOK)); [by intros [=]|].
  destruct (jsonUnmarshalClientInformation body) as [u [e3|]]; [by intros [=]|].
  intros [= <- <-].
  intros Hepoch. change (0 ≤ timeNow w1) in Hepoch. exists u.
  assert (∀ w, cachedBaseURI (atWorld w (cacheSetBaseURI u (atWorld w1 σ)).1.2)
               = if decide (timeNow w ≤ timeNow w1 + 60 * Second)
                 then Some u else None) as Hcached.
  { intros w. unfold cachedBaseURI, cache.Get, cache.Set_. simpl.
    rewrite lookup_insert_eq. simpl. rewrite Httl.
    unfold cache.DefaultExpiration, baseURICacheExpiration, Minute, Second.
    repeat (case_decide; simpl in * ); try done; lia. }
  split; [|split].
  - pose proof (Hcached w1) as Hnow.
    rewrite decide_True in Hnow by (unfold Second; lia).
    exact Hnow.
  - intros w Hw c audience Haud.
    change (timeNow w ≤ timeNow w1 + 60 * Second) in Hw.
    apply run_ValidateAudience_hit; [done|].
    rewrite Hcached. by rewrite decide_True.
  - intros w Hw. change (timeNow w1 + 60 * Second < timeNow w) in Hw.
    rewrite Hcached. by rewrite decide_False by lia.
Qed.

End ClientInformationFacts.

(** * The further properties at concrete inputs *)

Module ExtraExamples.
Import Demo DemoRest.
#[local] Existing Instance outside.
#[local] Existing Instance collaborators.

(** Two scopes in one required scope are not a scope. *)
Lemma space_in_required_witness :
  ValidateScope (Some aliceFull) "account commerce" active
  = (Some (Some errInsufficientScope), active, []).
Proof.
  apply ValidateScope_space_in_required. vm_compute. reflexivity.
Defined.

Lemma empty_scope_witness :
  ValidateScope (Some noScope) "" active = (Some None, active, [])
  ∧ ValidateScope (Some noScope) "account" active
    = (Some (Some errInsufficientScope), active, []).
Proof.
  split.
  - exact (ValidateScope_empty_scope noScope "" active eq_refl).
  - exact (ValidateScope_empty_scope noScope "account" active eq_refl).
Defined.

(** Flags 5: e-mail verified, phone not verified, anonymous. *)
Lemma status_decode_witness :
  UserEmailVerificationStatus (Some aliceFull) active = (Some (true, None), active, [])
  ∧ UserPhoneVerificationStatus (Some aliceFull) active
    = (Some (false, None), active, [])
  ∧ UserAnonymousStatus (Some aliceFull) active = (Some (true, None), active, []).
Proof.
  apply (status_queries_decode aliceFull true false true 0 active).
  reflexivity.
Defined.

Lemma positive_durations_witness :
  ∃ c heap' p cfg',
    built = Some (c, heap') ∧ config c = Some p ∧ heap' !! p = Some cfg' ∧
    0 < RolesCacheExpirationTime cfg' ∧
    0 < JWKSRefreshInterval cfg' ∧
    0 < RevocationListRefreshInterval cfg'.
Proof.
  destruct built as [[c heap']|] eqn:Hbuilt; [|vm_compute in Hbuilt; discriminate].
  destruct (NewDefaultClient_positive_durations _ _ _ _ Hbuilt)
    as (p & cfg' & Hp & Hcfg & Hr & Hj & Hv & _).
  exists c, heap', p, cfg'. repeat split; assumption.
Defined.

Lemma again_witness :
  ∃ c heap',
    built = Some (c, heap') ∧
    NewDefaultClient (Some 1%positive) heap' = Some (c, heap').
Proof.
  destruct built as [[c heap']|] eqn:Hbuilt; [|vm_compute in Hbuilt; discriminate].
  exists c, heap'. split; [reflexivity|].
  exact (NewDefaultClient_again _ _ _ _ Hbuilt).
Defined.

Lemma fresh_witness :
  ∃ c heap',
    built = Some (c, heap') ∧ HealthCheck c = true ∧
    ValidateAndParseClaims "token-of-alice"
      {| client := c; configs := heap'; world := 0 |}
    = (Some (None, Some errLocalValidationNotActive),
       {| client := c; configs := heap'; world := 0 |}, []).
Proof.
  destruct built as [[c heap']|] eqn:Hbuilt; [|vm_compute in Hbuilt; discriminate].
  destruct (NewDefaultClient_fresh _ _ _ _ Hbuilt) as (Hhealthy & _ & Hrefuse).
  exists c, heap'. split; [reflexivity|]. split; [exact Hhealthy|].
  apply Hrefuse.
Defined.

(** The keys cannot be fetched: the revocation list is not asked for. *)
Lemma start_outcome_witness :
  ∃ e, getJWKS idle = (Some e, idle) ∧
       StartLocalValidation idle
       = (Some (Some (errorString ("unable to get JWKS: " +:+ Error e))),
          idle, [EvGetJWKS]).
Proof.
  assert (StartLocalValidation idle
          = (Some (Some (errorString "unable to get JWKS: connection refused")),
             idle, [EvGetJWKS])) as Hrun by (vm_compute; reflexivity).
  destruct (StartLocalValidation_outcome idle idle _ _ Hrun)
    as [(Hr & _)|[(e & Hr & Hj & Ht)|(e & σ1 & _ & Hj & _)]].
  - discriminate Hr.
  - exists e. split; [exact Hj|]. rewrite <- Hr. exact Hrun.
  - vm_compute in Hj. discriminate Hj.
Defined.

(** Alice's token against the map in which she was revoked at 999. *)
Lemma accepts_witness :
  ValidateAndParseClaims "token-of-alice" activeEarlier
  = (Some (Some alice, None), activeEarlier,
     [EvValidateJWT "token-of-alice"; EvTokenRevoked "token-of-alice"]).
Proof.
  apply (proj2 (ValidateAndParseClaims_accepts "token-of-alice"
                  activeEarlier activeEarlier alice None _)).
  split; [reflexivity|]. split; [reflexivity|]. split; [reflexivity|].
  exists activeEarlier. split; [reflexivity|]. split; vm_compute; reflexivity.
Defined.

(** A token that does not verify. *)
Lemma rejects_witness :
  ∃ e claims,
    validateJWT "garbage" active = ((claims, Some e), active) ∧
    ValidateAndParseClaims "garbage" active
    = (Some (None, Some (errorString ("unable to verify JWT : " +:+ Error e))),
       active, [EvValidateJWT "garbage"]).
Proof.
  assert (ValidateAndParseClaims "garbage" active
          = (Some (None, Some (errorString "unable to verify JWT : malformed token")),
             active, [EvValidateJWT "garbage"])) as Hrun by (vm_compute; reflexivity).
  destruct (ValidateAndParseClaims_rejects "garbage" active active _ _ Hrun)
    as [(_ & Ht & _)|[(e & claims & He & Hjwt & Ht)|[(He & _)|(He & _)]]];
    try discriminate.
  exists e, claims. split; [exact Hjwt|]. rewrite <- He. exact Hrun.
Defined.

(** "ghost" and "down" are asked for, "mod" is not. *)
Lemma fetches_prefix_witness :
  ∃ k, [EvGetRolePermission "ghost"; EvGetRolePermission "down"]
       = EvGetRolePermission <$> take k (Roles alice).
Proof.
  assert (ValidatePermission (Some alice) rolePermission namespaceBinding active
          = (Some (false, Some (errorString "role store is down")), active,
             [EvGetRolePermission "ghost"; EvGetRolePermission "down"])) as Hrun
    by (vm_compute; reflexivity).
  exact (ValidatePermission_fetches_prefix _ _ _ _ _ _ _ Hrun).
Defined.

(** The role "mod" grants the permission; "down" behind it is not asked
    for. *)
Lemma role_fetched_witness :
  ValidatePermission (Some moderator) roleResource [] active
  = (Some (true, None), active,
     [EvGetRolePermission "ghost"] ++ [EvGetRolePermission "mod"]).
Proof.
  assert (permissionAllowed
            (applyUserPermissionResourceValues
               [{| Resource := "NAMESPACE:accel:ROLE"; Action := 6 |}] moderator)
            (replacePlaceholders [] roleResource) = true) as Hallowed
    by (vm_compute; reflexivity).
  rewrite (ValidatePermission_role_fetched moderator roleResource []
             ["ghost"] ["down"] "mod" active active active
             [EvGetRolePermission "ghost"]
             [{| Resource := "NAMESPACE:accel:ROLE"; Action := 6 |}]);
    [by rewrite Hallowed| | | |]; vm_compute; reflexivity.
Defined.

(** A resource without placeholder; the bindings of the documentation. *)
Lemma unused_bindings_witness :
  ValidatePermission (Some alice) roleResource
    [("{namespace}", "accel"); ("{userId}", "42")] active
  = ValidatePermission (Some alice) roleResource [] active.
Proof.
  apply ValidatePermission_unused_bindings.
  intros placeholder value Hin.
  apply elem_of_cons in Hin as [[= -> ->]|Hin]; [vm_compute; reflexivity|].
  apply elem_of_cons in Hin as [[= -> ->]|Hin]; [vm_compute; reflexivity|].
  by apply elem_of_nil in Hin.
Defined.


(** The transport cannot connect: an error, and the client is as it
    was. *)
Lemma error_witness :
  ∃ σ' t,
    getClientInformation infoURL offline
    = (Some (Some (errorString
         "unable to do http request: dial tcp: connection refused")), σ', t) ∧
    client σ' = client offline.
Proof.
  assert (getClientInformation infoURL offline
          = (Some (Some (errorString
               "unable to do http request: dial tcp: connection refused")),
             (getClientInformation infoURL offline).1.2,
             (getClientInformation infoURL offline).2)) as Hrun
    by (vm_compute; reflexivity).
  destruct (getClientInformation_error infoURL offline _ _ _ Hrun)
    as (Hclient & _ & _ & _).
  eexists _, _. split; [exact Hrun|exact Hclient].
Defined.

Lemma status_witness :
  ∃ t,
    getClientInformation infoURL forbidden =
    (Some (Some (errorString
       ("unable to get client information : error code : "
        +:+ pretty 403 +:+ ", error message : " +:+ "forbidden"))),
     atWorld 1 forbidden, t).
Proof.
  destruct (getClientInformation_status infoURL forbidden
              {| Method := "GET"; URL := infoURL; Header := [] |}
              {| StatusCode := 403; Body := ("forbidden", None) |}
              "forbidden" 1)
    as (t & Hrun & _); [vm_compute; reflexivity..|vm_compute; discriminate|].
  exists t. exact Hrun.
Defined.

Lemma nil_sound_witness :
  ∃ c, Some alice = Some c ∧
       (Audience c = None ∨
        ∃ audience u,
          Audience c = Some audience ∧ cachedBaseURI warm = Some u ∧ u ∈ audience).
Proof.
  apply (ValidateAudience_nil_sound (Some alice) active warm
           (ValidateAudience (Some alice) active).2).
  vm_compute. reflexivity.
Defined.

Lemma audience_again_witness :
  ValidateAudience (Some alice) warm = (Some None, warm, []).
Proof.
  apply (ValidateAudience_again alice ["https://app.example"] active warm
           (ValidateAudience (Some alice) active).2).
  - reflexivity.
  - vm_compute. reflexivity.
Defined.

(** Fetched at time 1 of the clock: in the cache at time 60000000001, not
    at 60000000002. *)
Lemma cached_one_minute_witness :
  ∃ u,
    ValidateAudience (Some alice) (atWorld 60000000001 warm)
    = (Some (if decide (u ∈ ["https://app.example"]) then None
             else Some errAudienceMismatch), atWorld 60000000001 warm, [])
    ∧ cachedBaseURI (atWorld 60000000002 warm) = None.
Proof.
  destruct (base_URI_cached_one_minute infoURL active warm
              (getClientInformation infoURL active).2)
    as (u & _ & Hhit & Hmiss).
  - vm_compute. reflexivity.
  - vm_compute. reflexivity.
  - vm_compute. discriminate.
  - exists u. split.
    + apply Hhit; [vm_compute; discriminate|reflexivity].
    + apply Hmiss. vm_compute. reflexivity.
Defined.

End ExtraExamples.

Module ExtraExamplesUp.
Import Demo DemoRest.
#[local] Existing Instance outside.
#[local] Existing Instance collaboratorsUp.

(** After a start that succeeded, alice's token is verified. *)
Lemma start_then_validate_witness :
  ∃ r σ'' t',
    ValidateAndParseClaims "token-of-alice" started
    = (r, σ'', EvValidateJWT "token-of-alice" :: t') ∧
    r ≠ Some (None, Some errLocalValidationNotActive).
Proof.
  apply (StartLocalValidation_then_validate idle started
           (StartLocalValidation idle).2 "token-of-alice").
  vm_compute. reflexivity.
Defined.

(** The JWT verification returns nothing for "void": a panic. *)
Lemma panics_witness :
  (ValidateAndParseClaims "void" started).1.1 = None.
Proof.
  apply (proj2 (ValidateAndParseClaims_panics "void" started)).
  split; [reflexivity|]. exists started. reflexivity.
Defined.

(** None of the roles of the token is known. *)
Lemma all_roles_unknown_witness :
  ∃ σ', ValidatePermission (Some stranger) roleResource [] started
        = (Some (false, None), σ',
           [EvGetRolePermission "ghost"; EvGetRolePermission "phantom"]).
Proof.
  apply (ValidatePermission_all_roles_unknown stranger roleResource [] started).
  - reflexivity.
  - intros roleID σ0 Hin. reflexivity.
Defined.

End ExtraExamplesUp.
